(** * explainer.py: slide extraction, resilient explanation requests, pacing

    A shallow embedding of [explainer.py].  The script extracts the text of
    every slide of a deck, asks a remote chat-completion service for an
    explanation of each one (retrying with a back-off), paces the requests,
    and dumps the explanations as JSON next to the input file.

    Effects are modelled with a state-and-exception monad over a [world]
    holding the remote service's state, the file store and the chronological
    list of observable events (log records, requests, sleeps, file writes).
    The remote service, and the command-line parser, are collaborators
    described by the class [Collaborators]. *)

From Stdlib Require Import ZArith NArith List Bool Lia String Ascii DecimalString.
From Stdlib Require QArith.
From stdpp Require Import base list gmap.

Local Open Scope N_scope.

(** ** Python strings

    A Python [str] is a sequence of Unicode code points; it is modelled as a
    list of code points so that [str.strip] sees the same whitespace
    characters as CPython does. *)

Abbreviation str := (list N).

(** An ASCII literal of the source. *)
Definition lit (s : string) : str := map N_of_ascii (list_ascii_of_string s).

(** [str.isspace] on one code point (CPython's [_PyUnicode_IsWhitespace]). *)
Definition isspace (c : N) : bool :=
  ((0x09 <=? c) && (c <=? 0x0D)) || ((0x1C <=? c) && (c <=? 0x20))
  || (c =? 0x85) || (c =? 0xA0) || (c =? 0x1680)
  || ((0x2000 <=? c) && (c <=? 0x200A))
  || (c =? 0x2028) || (c =? 0x2029) || (c =? 0x202F) || (c =? 0x205F)
  || (c =? 0x3000).

Fixpoint lstrip (s : str) : str :=
  match s with
  | [] => []
  | c :: s' => if isspace c then lstrip s' else s
  end.

Definition rstrip (s : str) : str := rev (lstrip (rev s)).

(** [s.strip()] *)
Definition strip (s : str) : str := rstrip (lstrip s).

(** Truth value of a string: [if text:] *)
Definition truthy (s : str) : bool :=
  match s with [] => false | _ :: _ => true end.

(** [str(n)] for an integer, as interpolated by an f-string. *)
Definition str_of_Z (z : Z) : str := lit (NilEmpty.string_of_int (Z.to_int z)).

(** ** The slide deck, as exposed by the document parser

    slides -> shapes -> optional text attribute. *)

Record shape := { text : option str }.
Record slide := { shapes : list shape }.
Record presentation := { slides : list slide }.

(** [extract_text_from_slide]: the loop over [slide.shapes] is a left fold
    on the accumulator [text]. *)
Definition extract_text_from_slide (sl : slide) : str :=
  strip (fold_left
           (fun acc sh =>
              match text sh with
              | Some t => acc ++ (t ++ lit " ")
              | None => acc
              end)
           (shapes sl) []).

(** The list comprehension of line 66. *)
Definition all_texts_of (ppt : presentation) : list str :=
  flat_map (fun sl => if truthy (extract_text_from_slide sl)
                      then [extract_text_from_slide sl] else [])
           (slides ppt).

(** ** The remote service's request and response *)

Record chat_message := { role : str; content : str }.

Record request := {
  model : str;
  messages : list chat_message;
  max_tokens : Z;
  temperature : QArith_base.Q
}.

(** The message of a choice, as a Python object.  The client that the
    script constructs, [AsyncOpenAI], answers with [ChatCompletionMessage]
    objects, whose fields are attributes: they have no [__getitem__].  A
    client handed to [get_explanation] by another caller may answer with a
    mapping. *)
Inductive message_obj :=
| ChatCompletionMessage (role : str) (content : option str)
| Mapping (entries : gmap str str).

(** The response: [response.choices] is a sequence of choices, each with
    its message. *)
Record choice := { message : message_obj }.
Record response := { choices : list choice }.

(** ** Exceptions

    The four categories the handlers of [get_explanation] tell apart, each
    carrying [str(e)].  An exception is classified by the first [except]
    clause that matches it, so [OtherException] stands for every [Exception]
    that is none of the three API errors. *)
Inductive exn :=
| RateLimitError (msg : str)
| APIConnectionError (msg : str)
| APIError (msg : str)
| OtherException (msg : str).

Definition exn_str (e : exn) : str :=
  match e with
  | RateLimitError m | APIConnectionError m | APIError m | OtherException m => m
  end.

Inductive result (A : Type) :=
| Returned (a : A)
| Raised (e : exn).
Arguments Returned {A} a.
Arguments Raised {A} e.

(** [str(e)] of the [TypeError] raised by a subscript on a
    [ChatCompletionMessage]. *)
Definition not_subscriptable : str :=
  lit "'ChatCompletionMessage' object is not subscriptable".

(** [message['content']]: the value, or the exception of the subscript (a
    [TypeError] on an object without [__getitem__], a [KeyError] on a
    mapping without the key). *)
Definition subscript_content (m : message_obj) : result str :=
  match m with
  | ChatCompletionMessage _ _ => Raised (OtherException not_subscriptable)
  | Mapping entries =>
      match entries !! lit "content" with
      | Some c => Returned c
      | None => Raised (OtherException (lit "'content'"))
      end
  end.

(** [response.choices[0].message['content']]: the value, or the exception
    raised on the way (an [IndexError] when there is no choice). *)
Definition read_content (r : response) : result str :=
  match choices r with
  | c :: _ => subscript_content (message c)
  | [] => Raised (OtherException (lit "list index out of range"))
  end.

(** ** Observable events *)

Inductive level := INFO | WARNING | ERROR.

(** The call site of an [asyncio.sleep]: line 48, lines 51 and 55, lines 76
    and 78.  The label is a ghost annotation. *)
Inductive sleep_site := RateLimitWait | Backoff | Pacing.

Inductive event :=
| Log (lv : level) (msg : str)
| Request (req : request)
| Sleep (site : sleep_site) (secs : Z)
| Write (path : str) (data : str).

(** A stored file: a slide deck (seen through the document parser) or text. *)
Inductive file :=
| Pptx (ppt : presentation)
| Text (data : str).

(** Outcome of [parser.parse_args()]: the positional [file_path], or the
    exit status with which argparse leaves the process. *)
Inductive args_result :=
| ArgsOk (file_path : str)
| ArgsExit (status : Z).

(** The collaborators: the chat-completion endpoint, a state machine whose
    state stands for everything the service remembers, and argparse. *)
Class Collaborators := {
  St : Type;
  create : request -> St -> result response * St;
  parse_args : list str -> args_result
}.

(** ** os.path.splitext (POSIX flavour) and json.dump *)

(** [p.rfind(c)], with [None] for -1. *)
Fixpoint rfind_from (c : N) (p : str) (i : nat) (last : option nat) : option nat :=
  match p with
  | [] => last
  | x :: p' => rfind_from c p' (S i) (if x =? c then Some i else last)
  end.
Definition rfind (c : N) (p : str) : option nat := rfind_from c p 0%nat None.

(** [genericpath._splitext] with [sep = '/'], no [altsep], [extsep = '.']. *)
Definition splitext (p : str) : str * str :=
  let filenameIndex :=
    match rfind 0x2F p with Some i => S i | None => 0%nat end in
  match rfind 0x2E p with
  | Some dotIndex =>
      if (filenameIndex <=? dotIndex)%nat then
        (* skip all leading dots *)
        if forallb (fun x => x =? 0x2E)
                   (firstn (dotIndex - filenameIndex) (skipn filenameIndex p))
        then (p, [])
        else (firstn dotIndex p, skipn dotIndex p)
      else (p, [])
  | None => (p, [])
  end.

Definition hex_digit (n : N) : N := if n <? 10 then 0x30 + n else 0x57 + n.

(** ['{0:04x}'.format(n)] for [n < 0x10000] *)
Definition hex4 (n : N) : str :=
  [hex_digit (n / 0x1000 mod 16); hex_digit (n / 0x100 mod 16);
   hex_digit (n / 0x10 mod 16); hex_digit (n mod 16)].

Definition u_escape (n : N) : str := [0x5C; 0x75] ++ hex4 n.

(** The replacement of one character by [json.encoder]'s
    [py_encode_basestring_ascii] ([ensure_ascii] is left at its default). *)
Definition escape_char (c : N) : str :=
  if c =? 0x22 then [0x5C; 0x22]
  else if c =? 0x5C then [0x5C; 0x5C]
  else if c =? 0x08 then [0x5C; 0x62]
  else if c =? 0x0C then [0x5C; 0x66]
  else if c =? 0x0A then [0x5C; 0x6E]
  else if c =? 0x0D then [0x5C; 0x72]
  else if c =? 0x09 then [0x5C; 0x74]
  else if (0x20 <=? c) && (c <=? 0x7E) then [c]
  else if c <? 0x10000 then u_escape c
  else
    let n := c - 0x10000 in
    u_escape (N.lor 0xD800 (N.land (N.shiftr n 10) 0x3FF))
    ++ u_escape (N.lor 0xDC00 (N.land n 0x3FF)).

Definition encode_str (s : str) : str :=
  [0x22] ++ flat_map escape_char s ++ [0x22].

Definition newline_indent : str := [0x0A] ++ lit "    ".

(** [json.dumps(l, indent=4)] for a list of strings. *)
Definition json_dumps (l : list str) : str :=
  match l with
  | [] => lit "[]"
  | x :: xs =>
      lit "[" ++ newline_indent ++ encode_str x
      ++ flat_map (fun y => lit "," ++ newline_indent ++ encode_str y) xs
      ++ [0x0A] ++ lit "]"
  end.

(** ** The world and the monad of effects *)

Section Model.
Context `{Collaborators}.

Record world := {
  remote : St;
  fs : gmap str file;
  events : list event
}.

Definition M (A : Type) : Type := world -> result A * world.

Definition ret {A} (a : A) : M A := fun w => (Returned a, w).

Definition raise {A} (e : exn) : M A := fun w => (Raised e, w).

Definition bind {A B} (m : M A) (k : A -> M B) : M B :=
  fun w =>
    match m w with
    | (Returned a, w') => k a w'
    | (Raised e, w') => (Raised e, w')
    end.

(** [try: body  except ... as e: handler e] *)
Definition try_except {A} (body : M A) (handler : exn -> M A) : M A :=
  fun w =>
    match body w with
    | (Returned a, w') => (Returned a, w')
    | (Raised e, w') => handler e w'
    end.

Definition emit (e : event) : M unit :=
  fun w => (Returned tt,
            {| remote := remote w; fs := fs w; events := events w ++ [e] |}).

Definition logging (lv : level) (msg : str) : M unit := emit (Log lv msg).

Definition sleep (site : sleep_site) (secs : Z) : M unit := emit (Sleep site secs).

(** [await client.chat.completions.create(...)] *)
Definition chat_completions_create (req : request) : M response :=
  fun w =>
    let (r, st') := create req (remote w) in
    (r, {| remote := st'; fs := fs w; events := events w ++ [Request req] |}).

(** [Presentation(file_path)]: fails when no deck is stored at the path. *)
Definition Presentation (file_path : str) : M presentation :=
  fun w =>
    match fs w !! file_path with
    | Some (Pptx ppt) => (Returned ppt, w)
    | _ => (Raised (OtherException
                      (lit "Package not found at '" ++ file_path ++ lit "'")), w)
    end.

(** [with open(path, 'w') as f: f.write(data)] *)
Definition write_file (path data : str) : M unit :=
  fun w => (Returned tt,
            {| remote := remote w;
               fs := <[path := Text data]> (fs w);
               events := events w ++ [Write path data] |}).

End Model.

Notation "x <- c1 ;; c2" := (bind c1 (fun x => c2))
  (at level 100, c1 at next level, right associativity).
Notation "c1 ;;; c2" := (bind c1 (fun _ => c2))
  (at level 100, right associativity).

Section Program.
Context `{Collaborators}.
Local Open Scope Z_scope.

(** ** get_explanation *)

Definition the_request (text : str) : request :=
  {| model := lit "gpt-3.5-turbo";
     messages :=
       [ {| role := lit "system"; content := lit "You are a helpful assistant." |};
         {| role := lit "user";
            content :=
              lit "Explain the following presentation slide content succinctly:"
              ++ [0x0A; 0x0A]%N ++ text |} ];
     max_tokens := 1500;
     temperature := QArith_base.Qmake 1 2 |}.

(** [response.choices[0].message['content']], evaluated inside the [try]:
    it leaves the world as it is. *)
Definition first_content (r : response) : M str :=
  fun w => (read_content r, w).

Definition failed_after_retries : str :=
  lit "Failed to get explanation after several retries due to rate limits.".

(** One iteration of the [for attempt in range(retries)] loop, run with the
    current value of [delay]: [inl s] when the iteration returns [s] from the
    function, [inr delay'] when it falls through to the next iteration with
    [delay] now [delay']. *)
Definition attempt (text : str) (delay : Z) : M (str + Z) :=
  try_except
    (r <- chat_completions_create (the_request text) ;;
     c <- first_content r ;;
     logging INFO (lit "Received explanation: " ++ firstn 60 (strip c) ++ lit "...") ;;;
     c' <- first_content r ;;
     ret (inl (strip c')))
    (fun e =>
       match e with
       | RateLimitError _ =>
           logging WARNING
             (lit "Rate limit exceeded. Waiting for 1 minute before retrying...") ;;;
           sleep RateLimitWait 60 ;;;
           ret (inr delay)
       | APIConnectionError _ =>
           logging ERROR
             (lit "Failed to connect to OpenAI API: " ++ exn_str e
              ++ lit ". Retrying in " ++ str_of_Z delay ++ lit " seconds...") ;;;
           sleep Backoff delay ;;;
           ret (inr (Z.min (delay * 2) 60))
       | APIError _ =>
           logging ERROR
             (lit "OpenAI API returned an error: " ++ exn_str e
              ++ lit ". Retrying in " ++ str_of_Z delay ++ lit " seconds...") ;;;
           sleep Backoff delay ;;;
           ret (inr (Z.min (delay * 2) 60))
       | OtherException _ =>
           logging ERROR (lit "Error processing slide: " ++ exn_str e) ;;;
           ret (inl (lit "Error processing slide: " ++ exn_str e))
       end).

(** The loop of [get_explanation], with [n] iterations left. *)
Fixpoint attempts (text : str) (n : nat) (delay : Z) : M str :=
  match n with
  | O => ret failed_after_retries
  | S n' =>
      r <- attempt text delay ;;
      match r with
      | inl s => ret s
      | inr delay' => attempts text n' delay'
      end
  end.

(** [get_explanation(client, text, retries)]; the client handle is the
    remote state of the world. *)
Definition get_explanation_with (text : str) (retries : Z) : M str :=
  attempts text (Z.to_nat retries) 1.

(** [get_explanation(client, text)], with the default [retries=5]. *)
Definition get_explanation (text : str) : M str := get_explanation_with text 5.

(** ** process_presentation *)

(** The loop [for i, text in enumerate(all_texts)], from index [i] on, with
    [total = len(all_texts)] and the list [explanations] built so far. *)
Fixpoint explain_from (total : Z) (i : Z) (texts : list str)
    (explanations : list str) : M (list str) :=
  match texts with
  | [] => ret explanations
  | text :: rest =>
      if truthy text then
        logging INFO (lit "Submitting slide " ++ str_of_Z (i + 1) ++ lit "/"
                      ++ str_of_Z total ++ lit " for explanation...") ;;;
        explanation <- get_explanation text ;;
        let explanations := explanations ++ [explanation] in
        (if (i + 1) mod 3 =? 0 then
           logging INFO
             (lit "Processed 3 slides. Waiting for 1 minute to comply with rate limits...") ;;;
           sleep Pacing 60
         else
           sleep Pacing 20) ;;;
        explain_from total (i + 1) rest explanations
      else explain_from total (i + 1) rest explanations
  end.

Definition process_presentation (file_path : str) : M (list str) :=
  logging INFO (lit "Processing presentation: " ++ file_path) ;;;
  ppt <- Presentation file_path ;;
  let all_texts := all_texts_of ppt in
  explain_from (Z.of_nat (length all_texts)) 0 all_texts [].

(** ** save_explanations and main *)

Definition output_path (file_path : str) : str :=
  fst (splitext file_path) ++ lit ".json".

Definition save_explanations (file_path : str) (explanations : list str) : M unit :=
  let output_file := output_path file_path in
  logging INFO (lit "Saving explanations to " ++ output_file) ;;;
  write_file output_file (json_dumps explanations).

(** [main()], where [parser.parse_args()] has produced [file_path]; the
    case where argparse leaves the process is part of [script]. *)
Definition main (file_path : str) : M unit :=
  explanations <- process_presentation file_path ;;
  save_explanations file_path explanations ;;;
  logging INFO (lit "Explanations saved to " ++ fst (splitext file_path) ++ lit ".json").

Definition OPENAI_API_KEY : str := lit "OPENAI_API_KEY".

Definition missing_key_message : str :=
  lit "OPENAI_API_KEY is not set. Please set it in your environment variables.".

(** The script run as [python explainer.py argv...] in environment [env]:
    the exit status of the process and the final world.  An exception that
    reaches the top level ends the process with status 1. *)
Definition script (env : gmap str str) (argv : list str) (w : world) : Z * world :=
  match env !! OPENAI_API_KEY with
  | None =>
      let (_, w') := logging ERROR missing_key_message w in
      (1, w')
  | Some _ =>
      match parse_args argv with
      | ArgsExit status => (status, w)
      | ArgsOk file_path =>
          match main file_path w with
          | (Returned _, w') => (0, w')
          | (Raised _, w') => (1, w')
          end
      end
  end.

End Program.

(** ** Reading a trace *)

(** The seconds slept at one call site, in order. *)
Definition sleeps_at (site : sleep_site) (tr : list event) : list Z :=
  flat_map (fun e =>
              match e with
              | Sleep s secs =>
                  match site, s with
                  | RateLimitWait, RateLimitWait | Backoff, Backoff
                  | Pacing, Pacing => [secs]
                  | _, _ => []
                  end
              | _ => []
              end) tr.

Definition requests (tr : list event) : list request :=
  flat_map (fun e => match e with Request r => [r] | _ => [] end) tr.

Definition writes (tr : list event) : list (str * str) :=
  flat_map (fun e => match e with Write p d => [(p, d)] | _ => [] end) tr.

(** The trace without its log records: requests, sleeps and writes. *)
Definition actions (tr : list event) : list event :=
  List.filter (fun e => match e with Log _ _ => false | _ => true end) tr.

(** [s.split('\n')] *)
Fixpoint split_lines (s : str) : list str :=
  match s with
  | [] => [[]]
  | c :: s' =>
      if (c =? 0x0A)%N then [] :: split_lines s'
      else match split_lines s' with
           | l :: ls => (c :: l) :: ls
           | [] => [[c]]
           end
  end.

(** ** The specification's reading of two operations

    These two definitions follow the words of the specification, to be
    compared with the code's. *)

(** Extractor, as specified: the shapes' texts concatenated, then trimmed. *)
Definition extract_as_specified (sl : slide) : str :=
  strip (flat_map (fun sh => match text sh with Some t => t | None => [] end)
                  (shapes sl)).


(** The pacing of the code for [n] processed slides. *)
Definition pacing (n : nat) : list Z :=
  map (fun i => if (Z.of_nat i mod 3 =? 0)%Z then 60%Z else 20%Z) (seq 1 n).

(** The successive values of [delay] slept by [n] failing attempts in a
    row, the first of which runs with [delay]. *)
Fixpoint backoff_delays (delay : Z) (n : nat) : list Z :=
  match n with
  | O => []
  | S n' => delay :: backoff_delays (Z.min (delay * 2) 60) n'
  end.

(** The pacing of the code for [n] slides processed after slide [i]. *)
Fixpoint pacing_from (i : Z) (n : nat) : list Z :=
  match n with
  | O => []
  | S n' => (if ((i + 1) mod 3 =? 0)%Z then 60%Z else 20%Z)
            :: pacing_from (i + 1) n'
  end.

(** What [get_explanation] hands back for [text]: the trimmed content read
    from a response of the service to the request for [text]; the message
    made from the exception raised while reading such a response, or raised
    by the request itself; or the message of the exhausted retries. *)
Inductive explanation `{Collaborators} (text : str) : str -> Prop :=
| real_explanation st r st' c :
    create (the_request text) st = (Returned r, st') ->
    read_content r = Returned c ->
    explanation text (strip c)
| unreadable_fallback st r st' m :
    create (the_request text) st = (Returned r, st') ->
    read_content r = Raised (OtherException m) ->
    explanation text (lit "Error processing slide: " ++ m)
| error_fallback st m st' :
    create (the_request text) st = (Raised (OtherException m), st') ->
    explanation text (lit "Error processing slide: " ++ m)
| retries_fallback : explanation text failed_after_retries.

(** What the loop of [process_presentation] does after the explanation of
    slide [i] (0-based) has been appended. *)
Definition pacing_events (i : Z) : list event :=
  if ((i + 1) mod 3 =? 0)%Z then
    [Log INFO (lit "Processed 3 slides. Waiting for 1 minute to comply with rate limits...");
     Sleep Pacing 60]
  else [Sleep Pacing 20].

Definition submitting (i total : Z) : event :=
  Log INFO (lit "Submitting slide " ++ str_of_Z (i + 1) ++ lit "/"
            ++ str_of_Z total ++ lit " for explanation...").

(** The lines of the dumped array: one item per line, indented by four
    spaces, every item but the last followed by a comma. *)
Fixpoint item_lines (l : list str) : list str :=
  match l with
  | [] => []
  | x :: xs =>
      match xs with
      | [] => [lit "    " ++ encode_str x]
      | _ :: _ => (lit "    " ++ encode_str x ++ lit ",") :: item_lines xs
      end
  end.

Definition json_lines (l : list str) : list str :=
  match l with
  | [] => [lit "[]"]
  | _ :: _ => [lit "["] ++ item_lines l ++ [lit "]"]
  end.

(** [' '.join(ts)] *)
Fixpoint join_space (ts : list str) : str :=
  match ts with
  | [] => []
  | t :: rest =>
      match rest with
      | [] => t
      | _ :: _ => t ++ lit " " ++ join_space rest
      end
  end.

(** A string that [strip] leaves alone: no whitespace at either end. *)
Definition trimmed (t : str) : Prop := lstrip t = t /\ lstrip (rev t) = rev t.

(** The seconds slept in a trace, all call sites together. *)
Definition total_sleep (tr : list event) : Z :=
  fold_right (fun e acc => match e with Sleep _ secs => secs + acc | _ => acc end)%Z
             0%Z tr.

Definition sum_Z (l : list Z) : Z := fold_right Z.add 0%Z l.

(** A Unicode scalar value: a code point that is not a surrogate. *)
Definition scalar (c : N) : Prop := c < 0xD800 \/ (0xE000 <= c /\ c < 0x110000).

(** A reader of what [escape_char] writes, used to show that the dump loses
    nothing: hexadecimal digits, the two-character escapes, and the
    [\u] escapes with their surrogate pairs. *)
Definition unhex_digit (x : N) : option N :=
  if (0x30 <=? x) && (x <=? 0x39) then Some (x - 0x30)
  else if (0x61 <=? x) && (x <=? 0x66) then Some (x - 0x57)
  else None.

Definition unhex4 (a b c d : N) : option N :=
  match unhex_digit a, unhex_digit b, unhex_digit c, unhex_digit d with
  | Some a', Some b', Some c', Some d' =>
      Some (a' * 0x1000 + b' * 0x100 + c' * 0x10 + d')
  | _, _, _, _ => None
  end.

Definition unescape_short (x : N) : option N :=
  if x =? 0x22 then Some 0x22
  else if x =? 0x5C then Some 0x5C
  else if x =? 0x62 then Some 0x08
  else if x =? 0x66 then Some 0x0C
  else if x =? 0x6E then Some 0x0A
  else if x =? 0x72 then Some 0x0D
  else if x =? 0x74 then Some 0x09
  else None.

Arguments unhex4 : simpl never.
Arguments unescape_short : simpl never.

Fixpoint unescape (s : str) : option str :=
  match s with
  | [] => Some []
  | c :: s1 =>
      if c =? 0x5C then
        match s1 with
        | [] => None
        | x :: s2 =>
            if x =? 0x75 then
              match s2 with
              | a :: b :: c' :: d :: s3 =>
                  match unhex4 a b c' d with
                  | None => None
                  | Some hi =>
                      if (0xD800 <=? hi) && (hi <=? 0xDBFF) then
                        match s3 with
                        | b1 :: u1 :: e :: f :: g :: h :: s4 =>
                            if (b1 =? 0x5C) && (u1 =? 0x75) then
                              match unhex4 e f g h, unescape s4 with
                              | Some lo, Some r =>
                                  Some ((0x10000 + (hi - 0xD800) * 0x400
                                         + (lo - 0xDC00)) :: r)
                              | _, _ => None
                              end
                            else None
                        | _ => None
                        end
                      else
                        match unescape s3 with
                        | Some r => Some (hi :: r)
                        | None => None
                        end
                  end
              | _ => None
              end
            else
              match unescape_short x, unescape s2 with
              | Some v, Some r => Some (v :: r)
              | _, _ => None
              end
        end
      else if (c =? 0x22) || (c <? 0x20) then None
      else
        match unescape s1 with
        | Some r => Some (c :: r)
        | None => None
        end
  end.

(** A strict reader of the layout that [json.dump(..., indent=4)] writes for
    a list of strings.  An item line is four spaces and a JSON string,
    followed by a comma unless it is the last one. *)
Definition read_item (last : bool) (line : str) : option str :=
  let closing := if last then [0x22] else [0x22; 0x2C] in
  let rest := drop 5 line in
  let n := (length rest - length closing)%nat in
  if bool_decide (take 5 line = lit "    " ++ [0x22])
     && bool_decide (drop n rest = closing)
  then unescape (take n rest)
  else None.

Fixpoint read_items (lines : list str) : option (list str) :=
  match lines with
  | [] => Some []
  | l :: rest =>
      match rest with
      | [] => match read_item true l with Some e => Some [e] | None => None end
      | _ :: _ =>
          match read_item false l, read_items rest with
          | Some e, Some es => Some (e :: es)
          | _, _ => None
          end
      end
  end.

(** The text is [[]] on one line, or [[], the item lines and []], each on
    a line of its own. *)
Definition json_loads (s : str) : option (list str) :=
  match split_lines s with
  | [] => None
  | first :: rest =>
      if bool_decide (first = lit "[]") && bool_decide (rest = []) then Some []
      else if bool_decide (first = lit "[") then
        match rev rest with
        | closing :: items =>
            if bool_decide (closing = lit "]") then read_items (rev items) else None
        | [] => None
        end
      else None
  end.

(** [os.path.join(a, b)] (POSIX flavour) *)
Definition path_join (a b : str) : str :=
  if match b with c :: _ => c =? 0x2F | [] => false end then b
  else if match last a with Some c => c =? 0x2F | None => true end then a ++ b
  else a ++ lit "/" ++ b.

(** test_explainer.py, [test_script], with [here] for
    [os.path.dirname(__file__)].  The child process started by
    [subprocess.run] is the script with the path of the demo deck as its
    only argument, in the environment of the test; its exit status is not
    looked at.  The result is the value of the asserted
    [os.path.exists(output_json)], with the world after the test. *)
Definition test_script `{Collaborators} (here : str) (env : gmap str str)
    (w : world) : bool * world :=
  let demo_pptx := path_join here (lit "presentation.pptx") in
  let output_json := fst (splitext demo_pptx) ++ lit ".json" in
  let (_, w') := script env [demo_pptx] w in
  (bool_decide (is_Some (fs w' !! output_json)), w').

(** A world that holds nothing but the service in state [st]. *)
Definition blank `{Collaborators} (st : St) : world :=
  {| remote := st; fs := ∅; events := [] |}.

(** The explanations of [texts], asked one after the other of a service
    that starts in state [st]: each call finds the service in the state in
    which the call before left it. *)
Fixpoint explanations_for `{Collaborators} (texts : list str) (st : St) : list str :=
  match texts with
  | [] => []
  | t :: rest =>
      match get_explanation t (blank st) with
      | (Returned e, w1) => e :: explanations_for rest (remote w1)
      | (Raised _, _) => []
      end
  end.

(** The state in which these calls leave the service. *)
Fixpoint remote_after `{Collaborators} (texts : list str) (st : St) : St :=
  match texts with
  | [] => st
  | t :: rest => remote_after rest (remote (snd (get_explanation t (blank st))))
  end.

(** ** Sample collaborators and decks *)

(** A response of the [AsyncOpenAI] client with one choice. *)
Definition one_choice (c : str) : response :=
  {| choices := [ {| message := ChatCompletionMessage (lit "assistant") (Some c) |} ] |}.

(** A response whose message is a mapping, as a stand-in client may give. *)
Definition mapping_choice (c : str) : response :=
  {| choices :=
       [ {| message := Mapping {[ lit "role" := lit "assistant";
                                  lit "content" := c ]} |} ] |}.

Definition one_arg (argv : list str) : args_result :=
  match argv with
  | [p] => ArgsOk p
  | _ => ArgsExit 2
  end.

(** A service that answers every request. *)
Definition answering : Collaborators :=
  {| St := unit;
     create := fun _ st => (Returned (one_choice (lit " A title slide. ")), st);
     parse_args := one_arg |}.

(** The prompt of a request: the content of its user message. *)
Definition user_prompt (req : request) : str :=
  match messages req with
  | [_; u] => content u
  | _ => []
  end.

(** A stand-in service that answers with a mapping and echoes the prompt. *)
Definition echoing : Collaborators :=
  {| St := unit;
     create := fun req st => (Returned (mapping_choice (user_prompt req)), st);
     parse_args := one_arg |}.

(** A stand-in service whose mapping lacks the content. *)
Definition keyless : Collaborators :=
  {| St := unit;
     create := fun _ st =>
       (Returned {| choices := [ {| message := Mapping {[ lit "role" := lit "assistant" ]} |} ] |},
        st);
     parse_args := one_arg |}.

(** A service that cannot be reached. *)
Definition unreachable : Collaborators :=
  {| St := unit;
     create := fun _ st => (Raised (APIConnectionError (lit "Connection error.")), st);
     parse_args := one_arg |}.

(** A service that is rate limited for its first two calls; its state counts
    the calls. *)
Definition limited_twice : Collaborators :=
  {| St := nat;
     create := fun _ n =>
       (if (n <? 2)%nat then Raised (RateLimitError (lit "Rate limit reached"))
        else Returned (one_choice (lit " A title slide. ")), S n);
     parse_args := one_arg |}.

(** A client that fails with an exception of no API category. *)
Definition broken : Collaborators :=
  {| St := unit;
     create := fun _ st => (Raised (OtherException (lit "boom")), st);
     parse_args := one_arg |}.

(** A service that is always rate limited. *)
Definition rate_limited : Collaborators :=
  {| St := unit;
     create := fun _ st => (Raised (RateLimitError (lit "Rate limit reached")), st);
     parse_args := one_arg |}.

(** A service that fails in turn with a connection error and with a generic
    API error; its state counts the calls. *)
Definition failing : Collaborators :=
  {| St := nat;
     create := fun _ n =>
       (if Nat.even n then Raised (APIConnectionError (lit "Connection error."))
        else Raised (APIError (lit "Internal server error")), S n);
     parse_args := one_arg |}.

(** A service that answers without any choice. *)
Definition choiceless : Collaborators :=
  {| St := unit;
     create := fun _ st => (Returned {| choices := [] |}, st);
     parse_args := one_arg |}.

Definition slide_of (ts : list string) : slide :=
  {| shapes := map (fun t => {| text := Some (lit t) |}) ts |}.

Definition picture : shape := {| text := None |}.

Definition deck4 : presentation :=
  {| slides := [ slide_of ["Intro"%string];
                 {| shapes := [picture] |};
                 slide_of ["Goals"%string; "Scope"%string];
                 slide_of ["   "%string];
                 slide_of ["Plan"%string];
                 slide_of ["Thanks"%string] ] |}.

Definition blank_deck : presentation :=
  {| slides := [ {| shapes := [picture] |}; slide_of [" "%string] ] |}.

Definition two_shapes : slide := slide_of ["a"%string; "b"%string].

Definition deck_path : str := lit "talks/deck.pptx".

Definition world_with `{Collaborators} (st : St) (ppt : presentation) : world :=
  {| remote := st; fs := {[ deck_path := Pptx ppt ]}; events := [] |}.

(** A deck stored under a name that ends in [.json]. *)
Definition json_named : str := lit "talks/deck.json".

Definition world_json_named `{Collaborators} (st : St) : world :=
  {| remote := st; fs := {[ json_named := Pptx deck4 ]}; events := [] |}.

(** The test directory with the demo deck, and the same directory with
    nothing but the output of an earlier run. *)
Definition world_demo `{Collaborators} (st : St) : world :=
  {| remote := st; fs := {[ lit "src/presentation.pptx" := Pptx deck4 ]};
     events := [] |}.

Definition world_stale `{Collaborators} (st : St) : world :=
  {| remote := st; fs := {[ lit "src/presentation.json" := Text (lit "[]") ]};
     events := [] |}.

Definition env_with_key : gmap str str := {[ OPENAI_API_KEY := lit "sk-test" ]}.

(** The file written by a run for the sample deck with a stand-in service
    that echoes its prompt, then written again by a second run. *)
Definition sample_dump : str :=
  lit "[" ++ [0x0A]
  ++ lit "    " ++ [0x22]
  ++ lit "Explain the following presentation slide content succinctly:\n\nIntro"
  ++ [0x22] ++ lit "," ++ [0x0A]
  ++ lit "    " ++ [0x22]
  ++ lit "Explain the following presentation slide content succinctly:\n\nGoals Scope"
  ++ [0x22] ++ lit "," ++ [0x0A]
  ++ lit "    " ++ [0x22]
  ++ lit "Explain the following presentation slide content succinctly:\n\nPlan"
  ++ [0x22] ++ lit "," ++ [0x0A]
  ++ lit "    " ++ [0x22]
  ++ lit "Explain the following presentation slide content succinctly:\n\nThanks"
  ++ [0x22] ++ [0x0A] ++ lit "]".

(** * Proofs *)

Example strip_demo : strip (lit "  a b  ") = lit "a b".
Proof. reflexivity. Qed.

Example extract_demo : map extract_text_from_slide (slides deck4)
  = [lit "Intro"; []; lit "Goals Scope"; []; lit "Plan"; lit "Thanks"].
Proof. reflexivity. Qed.

Example all_texts_demo : all_texts_of deck4
  = [lit "Intro"; lit "Goals Scope"; lit "Plan"; lit "Thanks"].
Proof. reflexivity. Qed.

Example splitext_demo :
  splitext deck_path = (lit "talks/deck", lit ".pptx")
  /\ splitext (lit "a.b/deck") = (lit "a.b/deck", [])
  /\ splitext (lit ".hidden") = (lit ".hidden", [])
  /\ splitext (lit "x/..rc.tar.gz") = (lit "x/..rc.tar", lit ".gz").
Proof. repeat split; reflexivity. Qed.

Example json_demo :
  json_dumps [lit "a"; [0x0A; 0xE9; 0x1F600]%N]
  = lit "[" ++ [0x0A]%N ++ lit "    " ++ [0x22; 0x61; 0x22]%N ++ lit "," ++ [0x0A]%N
    ++ lit "    " ++ [0x22]%N ++ lit "\n\u00e9\ud83d\ude00" ++ [0x22]%N
    ++ [0x0A]%N ++ lit "]".
Proof. reflexivity. Qed.

(** ** Strings *)

Lemma lstrip_nil_iff (s : str) : lstrip s = [] <-> forallb isspace s = true.
Proof.
  induction s as [|c s IH]; simpl; [tauto|].
  destruct (isspace c); simpl; [exact IH|].
  split; discriminate.
Qed.

Lemma lstrip_all_space (s : str) : forallb isspace s = true -> lstrip s = [].
Proof. apply lstrip_nil_iff. Qed.

Lemma forallb_rev {A} (f : A -> bool) (l : list A) :
  forallb f (rev l) = forallb f l.
Proof.
  induction l as [|a l IH]; simpl; [reflexivity|].
  rewrite forallb_app, IH. simpl. rewrite andb_true_r. apply andb_comm.
Qed.

Lemma lstrip_suffix (s : str) : exists p, s = p ++ lstrip s /\ forallb isspace p = true.
Proof.
  induction s as [|c s (p & Hp & Hs)]; simpl.
  - exists []. split; reflexivity.
  - destruct (isspace c) eqn:E.
    + exists (c :: p). simpl. rewrite E, Hs. split; [f_equal; exact Hp | reflexivity].
    + exists []. split; reflexivity.
Qed.

Lemma strip_nil_iff (s : str) : strip s = [] <-> forallb isspace s = true.
Proof.
  unfold strip, rstrip. split.
  - intros Hr.
    assert (Hl : lstrip (rev (lstrip s)) = []).
    { apply (f_equal (@rev N)) in Hr. rewrite rev_involutive in Hr. exact Hr. }
    apply lstrip_nil_iff in Hl. rewrite forallb_rev in Hl.
    destruct (lstrip_suffix s) as (p & Hp & Hs).
    rewrite Hp, forallb_app, Hs, Hl. reflexivity.
  - intros Hs. rewrite (lstrip_all_space s Hs). reflexivity.
Qed.

Lemma truthy_false (s : str) : truthy s = false <-> s = [].
Proof. destruct s; simpl; split; congruence. Qed.

Lemma truthy_true (s : str) : truthy s = true <-> s <> [].
Proof. destruct s; simpl; split; congruence. Qed.

(** ** The extractor *)

Lemma fold_shapes_flat_map (l : list shape) (acc : str) :
  fold_left (fun acc sh =>
               match text sh with
               | Some t => acc ++ (t ++ lit " ")
               | None => acc
               end) l acc
  = acc ++ flat_map (fun sh => match text sh with
                               | Some t => t ++ lit " "
                               | None => []
                               end) l.
Proof.
  revert acc. induction l as [|sh l IH]; intros acc; simpl.
  - symmetry. apply app_nil_r.
  - rewrite IH. destruct (text sh); [rewrite <- app_assoc|]; reflexivity.
Qed.

Lemma extract_text_from_slide_eq (sl : slide) :
  extract_text_from_slide sl
  = strip (flat_map (fun sh => match text sh with
                               | Some t => t ++ lit " "
                               | None => []
                               end) (shapes sl)).
Proof. unfold extract_text_from_slide. rewrite fold_shapes_flat_map. reflexivity. Qed.

Lemma all_texts_of_filter (ppt : presentation) :
  all_texts_of ppt = List.filter truthy (map extract_text_from_slide (slides ppt)).
Proof.
  unfold all_texts_of. induction (slides ppt) as [|sl l IH]; simpl; [reflexivity|].
  rewrite IH. destruct (truthy (extract_text_from_slide sl)); reflexivity.
Qed.

Lemma all_texts_truthy (ppt : presentation) :
  Forall (fun t => truthy t = true) (all_texts_of ppt).
Proof.
  rewrite all_texts_of_filter.
  apply List.Forall_forall. intros t Ht.
  apply List.filter_In in Ht. tauto.
Qed.

Lemma spaces_with_separators (l : list shape) :
  forallb isspace (flat_map (fun sh => match text sh with
                                       | Some t => t ++ lit " "
                                       | None => []
                                       end) l)
  = forallb isspace (flat_map (fun sh => match text sh with
                                         | Some t => t
                                         | None => []
                                         end) l).
Proof.
  induction l as [|sh l IH]; simpl; [reflexivity|].
  rewrite !forallb_app, IH. destruct (text sh); [|reflexivity].
  rewrite forallb_app. simpl. rewrite andb_true_r. reflexivity.
Qed.

Lemma extract_empty_iff (sl : slide) :
  extract_text_from_slide sl = [] <-> extract_as_specified sl = [].
Proof.
  rewrite extract_text_from_slide_eq. unfold extract_as_specified.
  rewrite !strip_nil_iff, spaces_with_separators. tauto.
Qed.

(** ** One attempt *)

Section Proofs.
Context `{Collaborators}.
Local Open Scope Z_scope.

Ltac run :=
  unfold attempt, try_except, bind, ret, raise, logging, sleep, emit,
    chat_completions_create, first_content, write_file; simpl.

Lemma trace_app_nil (w : world) :
  {| remote := remote w; fs := fs w; events := events w ++ [] |} = w.
Proof. destruct w; simpl. rewrite app_nil_r. reflexivity. Qed.

(** Reading the content of a response raises nothing but the exceptions of
    the last handler. *)
Lemma read_content_raises (r : response) (e : exn) :
  read_content r = Raised e -> exists m, e = OtherException m.
Proof.
  unfold read_content, subscript_content.
  destruct (choices r) as [|c cs]; [intros [= <-]; eexists; reflexivity|].
  destruct (message c) as [ro co|entries]; [intros [= <-]; eexists; reflexivity|].
  destruct (entries !! lit "content"); [discriminate|].
  intros [= <-]. eexists. reflexivity.
Qed.

(** The service answers and the content of its first choice can be read. *)
Lemma attempt_answered text delay w r st' c :
  create (the_request text) (remote w) = (Returned r, st') ->
  read_content r = Returned c ->
  attempt text delay w
  = (Returned (inl (strip c)),
     {| remote := st'; fs := fs w;
        events := events w ++
          [Request (the_request text);
           Log INFO (lit "Received explanation: "
                     ++ firstn 60 (strip c) ++ lit "...")] |}).
Proof.
  intros Hc Hr. run. rewrite Hc. simpl. rewrite Hr. simpl.
  rewrite <- app_assoc. reflexivity.
Qed.

(** The service answers, but reading the content raises: the exception is
    caught by the last handler. *)
Lemma attempt_unreadable text delay w r st' m :
  create (the_request text) (remote w) = (Returned r, st') ->
  read_content r = Raised (OtherException m) ->
  attempt text delay w
  = (Returned (inl (lit "Error processing slide: " ++ m)),
     {| remote := st'; fs := fs w;
        events := events w ++
          [Request (the_request text);
           Log ERROR (lit "Error processing slide: " ++ m)] |}).
Proof.
  intros Hc Hr. run. rewrite Hc. simpl. rewrite Hr. simpl.
  rewrite <- app_assoc. reflexivity.
Qed.

(** The service answers with no choice: [choices[0]] raises. *)
Lemma attempt_no_choice text delay w r st' :
  create (the_request text) (remote w) = (Returned r, st') ->
  choices r = [] ->
  attempt text delay w
  = (Returned (inl (lit "Error processing slide: " ++ lit "list index out of range")),
     {| remote := st'; fs := fs w;
        events := events w ++
          [Request (the_request text);
           Log ERROR (lit "Error processing slide: "
                      ++ lit "list index out of range")] |}).
Proof.
  intros Hc Hr. apply (attempt_unreadable _ _ _ _ _ _ Hc).
  unfold read_content. rewrite Hr. reflexivity.
Qed.

Lemma attempt_rate_limited text delay w m st' :
  create (the_request text) (remote w) = (Raised (RateLimitError m), st') ->
  attempt text delay w
  = (Returned (inr delay),
     {| remote := st'; fs := fs w;
        events := events w ++
          [Request (the_request text);
           Log WARNING
             (lit "Rate limit exceeded. Waiting for 1 minute before retrying...");
           Sleep RateLimitWait 60] |}).
Proof.
  intros Hc. run. rewrite Hc. simpl. rewrite <- !app_assoc. reflexivity.
Qed.

Lemma attempt_unreachable text delay w m st' :
  create (the_request text) (remote w) = (Raised (APIConnectionError m), st') ->
  attempt text delay w
  = (Returned (inr (Z.min (delay * 2) 60)),
     {| remote := st'; fs := fs w;
        events := events w ++
          [Request (the_request text);
           Log ERROR (lit "Failed to connect to OpenAI API: " ++ m
                      ++ lit ". Retrying in " ++ str_of_Z delay ++ lit " seconds...");
           Sleep Backoff delay] |}).
Proof.
  intros Hc. run. rewrite Hc. simpl. rewrite <- !app_assoc. reflexivity.
Qed.

Lemma attempt_api_error text delay w m st' :
  create (the_request text) (remote w) = (Raised (APIError m), st') ->
  attempt text delay w
  = (Returned (inr (Z.min (delay * 2) 60)),
     {| remote := st'; fs := fs w;
        events := events w ++
          [Request (the_request text);
           Log ERROR (lit "OpenAI API returned an error: " ++ m
                      ++ lit ". Retrying in " ++ str_of_Z delay ++ lit " seconds...");
           Sleep Backoff delay] |}).
Proof.
  intros Hc. run. rewrite Hc. simpl. rewrite <- !app_assoc. reflexivity.
Qed.

Lemma attempt_other text delay w m st' :
  create (the_request text) (remote w) = (Raised (OtherException m), st') ->
  attempt text delay w
  = (Returned (inl (lit "Error processing slide: " ++ m)),
     {| remote := st'; fs := fs w;
        events := events w ++
          [Request (the_request text);
           Log ERROR (lit "Error processing slide: " ++ m)] |}).
Proof.
  intros Hc. run. rewrite Hc. simpl. rewrite <- !app_assoc. reflexivity.
Qed.

(** ** The retry loop *)

Lemma sleeps_at_app site (t1 t2 : list event) :
  sleeps_at site (t1 ++ t2) = sleeps_at site t1 ++ sleeps_at site t2.
Proof. apply flat_map_app. Qed.

Lemma writes_app (t1 t2 : list event) : writes (t1 ++ t2) = writes t1 ++ writes t2.
Proof. apply flat_map_app. Qed.

Lemma requests_app (t1 t2 : list event) :
  requests (t1 ++ t2) = requests t1 ++ requests t2.
Proof. apply flat_map_app. Qed.

Lemma actions_app (t1 t2 : list event) : actions (t1 ++ t2) = actions t1 ++ actions t2.
Proof. apply List.filter_app. Qed.

(** Whatever the service does, an attempt comes back: with a string to
    return, or with the next value of [delay]. *)
Lemma attempt_returns text delay w :
  exists r st' tr,
    attempt text delay w
    = (Returned r, {| remote := st'; fs := fs w; events := events w ++ tr |})
    /\ sleeps_at Pacing tr = [] /\ writes tr = []
    /\ requests tr = [the_request text]
    /\ match r with inl s => explanation text s | inr _ => True end.
Proof.
  destruct (create (the_request text) (remote w)) as [[r|e] st'] eqn:Hc.
  - destruct (read_content r) as [c|e] eqn:Hr.
    + eexists _, _, _. split; [apply (attempt_answered _ _ _ _ _ _ Hc Hr)|].
      repeat split. eapply real_explanation; eassumption.
    + destruct (read_content_raises r e Hr) as (m & ->).
      eexists _, _, _. split; [apply (attempt_unreadable _ _ _ _ _ _ Hc Hr)|].
      repeat split. eapply unreadable_fallback; eassumption.
  - destruct e as [m|m|m|m].
    + eexists _, _, _. split; [apply (attempt_rate_limited _ _ _ _ _ Hc)|].
      repeat split.
    + eexists _, _, _. split; [apply (attempt_unreachable _ _ _ _ _ Hc)|].
      repeat split.
    + eexists _, _, _. split; [apply (attempt_api_error _ _ _ _ _ Hc)|].
      repeat split.
    + eexists _, _, _. split; [apply (attempt_other _ _ _ _ _ Hc)|].
      repeat split. eapply error_fallback; eassumption.
Qed.

Lemma attempts_step text n delay w r w1 :
  attempt text delay w = (Returned r, w1) ->
  attempts text (S n) delay w
  = match r with
    | inl s => (Returned s, w1)
    | inr delay' => attempts text n delay' w1
    end.
Proof.
  intros Ha. simpl. unfold bind at 1. rewrite Ha. destruct r; reflexivity.
Qed.

(** The loop always returns a string; it leaves the file store alone and
    neither writes a file nor sleeps at the pacing site. *)
Lemma attempts_returns text n : forall delay w,
  exists s st' tr,
    attempts text n delay w
    = (Returned s, {| remote := st'; fs := fs w; events := events w ++ tr |})
    /\ sleeps_at Pacing tr = [] /\ writes tr = []
    /\ (length (requests tr) <= n)%nat
    /\ Forall (fun r => r = the_request text) (requests tr)
    /\ explanation text s.
Proof.
  induction n as [|n IH]; intros delay w.
  - exists failed_after_retries, (remote w), []. simpl. unfold ret.
    rewrite trace_app_nil. repeat split; auto. apply retries_fallback.
  - destruct (attempt_returns text delay w) as (r & st1 & tr1 & Ha & Hp & Hw & Hq & Hr).
    rewrite (attempts_step _ _ _ _ _ _ Ha). destruct r as [s|delay'].
    + exists s, st1, tr1. rewrite Hq. repeat split; auto. simpl. lia.
    + destruct (IH delay' {| remote := st1; fs := fs w; events := events w ++ tr1 |})
        as (s & st2 & tr2 & Hb & Hp2 & Hw2 & Hl2 & Hq2 & Hs).
      exists s, st2, (tr1 ++ tr2). simpl in Hb. rewrite <- app_assoc in Hb.
      split; [exact Hb|].
      rewrite sleeps_at_app, writes_app, requests_app, Hp, Hw, Hp2, Hw2, Hq.
      repeat split; auto; [simpl; lia | constructor; auto].
Qed.

(** ** Back-off *)

Lemma backoff_delays_from (n : nat) : forall k : nat,
  backoff_delays (Z.min (2 ^ Z.of_nat k) 60) n
  = map (fun j => Z.min (2 ^ Z.of_nat j) 60) (seq k n).
Proof.
  induction n as [|n IH]; intros k; simpl; [reflexivity|].
  f_equal. rewrite <- IH. f_equal.
  rewrite Nat2Z.inj_succ, Z.pow_succ_r by lia.
  assert (0 < 2 ^ Z.of_nat k) by (apply Z.pow_pos_nonneg; lia).
  lia.
Qed.

Lemma backoff_delays_pow (n : nat) :
  backoff_delays 1 n = map (fun j => Z.min (2 ^ Z.of_nat j) 60) (seq 0 n).
Proof. apply (backoff_delays_from n 0). Qed.

Lemma backoff_delays_length (n : nat) : forall d, length (backoff_delays d n) = n.
Proof. induction n as [|n IH]; intros d; simpl; [reflexivity | now rewrite IH]. Qed.

Lemma requests_actions (tr : list event) : requests (actions tr) = requests tr.
Proof.
  induction tr as [|e tr IH]; simpl; [reflexivity|].
  destruct e; simpl; rewrite ?IH; reflexivity.
Qed.

Lemma sleeps_at_actions site (tr : list event) :
  sleeps_at site (actions tr) = sleeps_at site tr.
Proof.
  induction tr as [|e tr IH]; simpl; [reflexivity|].
  destruct e; simpl; rewrite ?IH; reflexivity.
Qed.

Lemma writes_actions (tr : list event) : writes (actions tr) = writes tr.
Proof.
  induction tr as [|e tr IH]; simpl; [reflexivity|].
  destruct e; simpl; rewrite ?IH; reflexivity.
Qed.

(** The actions of back-to-back failing attempts that sleep [ds]. *)
Lemma backoff_actions_read (r : request) (ds : list Z) :
  let tr := flat_map (fun d => [Request r; Sleep Backoff d]) ds in
  requests tr = repeat r (length ds)
  /\ sleeps_at Backoff tr = ds
  /\ sleeps_at RateLimitWait tr = []
  /\ sleeps_at Pacing tr = []
  /\ writes tr = [].
Proof.
  induction ds as [|d ds (Hr & Hb & Hl & Hp & Hw)]; simpl; [repeat split|].
  simpl in *. rewrite Hr, Hb, Hl, Hp, Hw. repeat split.
Qed.

(** With a service that is never reachable, the loop makes all its [n]
    attempts, each followed by its back-off sleep. *)
Lemma attempts_unreachable text :
  (forall req st, exists m st', create req st = (Raised (APIConnectionError m), st')) ->
  forall n delay w,
  exists st' tr,
    attempts text n delay w
    = (Returned failed_after_retries,
       {| remote := st'; fs := fs w; events := events w ++ tr |})
    /\ actions tr
       = flat_map (fun d => [Request (the_request text); Sleep Backoff d])
                  (backoff_delays delay n).
Proof.
  intros Hdown. induction n as [|n IH]; intros delay w.
  - exists (remote w), []. simpl. unfold ret. rewrite trace_app_nil. split; reflexivity.
  - destruct (Hdown (the_request text) (remote w)) as (m & st1 & Hc).
    rewrite (attempts_step _ _ _ _ _ _ (attempt_unreachable _ delay _ _ _ Hc)).
    match goal with |- context [attempts text n ?d ?w1] =>
      destruct (IH d w1) as (st2 & tr2 & Hb & Ha) end.
    simpl in Hb. rewrite <- app_assoc in Hb.
    eexists _, _. split; [exact Hb|].
    rewrite actions_app, Ha. reflexivity.
Qed.

(** ** The loop over the slides *)

Lemma get_explanation_returns text w :
  exists s st' tr,
    get_explanation text w
    = (Returned s, {| remote := st'; fs := fs w; events := events w ++ tr |})
    /\ sleeps_at Pacing tr = [] /\ writes tr = []
    /\ (length (requests tr) <= 5)%nat
    /\ Forall (fun r => r = the_request text) (requests tr)
    /\ explanation text s.
Proof. apply (attempts_returns text 5 1 w). Qed.

Lemma pacing_events_read (i : Z) :
  sleeps_at Pacing (pacing_events i) = [if (i + 1) mod 3 =? 0 then 60 else 20]
  /\ writes (pacing_events i) = []
  /\ requests (pacing_events i) = [].
Proof. unfold pacing_events. destruct ((i + 1) mod 3 =? 0); repeat split. Qed.

Lemma explain_from_skip total i text rest acc w :
  truthy text = false ->
  explain_from total i (text :: rest) acc w = explain_from total (i + 1) rest acc w.
Proof. intros Ht. simpl. rewrite Ht. reflexivity. Qed.

Lemma explain_from_cons total i text rest acc :
  explain_from total i (text :: rest) acc
  = if truthy text then
      emit (submitting i total) ;;;
      explanation <- get_explanation text ;;
      (if (i + 1) mod 3 =? 0 then
         logging INFO
           (lit "Processed 3 slides. Waiting for 1 minute to comply with rate limits...") ;;;
         sleep Pacing 60
       else sleep Pacing 20) ;;;
      explain_from total (i + 1) rest (acc ++ [explanation])
    else explain_from total (i + 1) rest acc.
Proof. reflexivity. Qed.

Lemma explain_from_step total i text rest acc w e st1 ev1 :
  truthy text = true ->
  get_explanation text
    {| remote := remote w; fs := fs w; events := events w ++ [submitting i total] |}
  = (Returned e, {| remote := st1; fs := fs w; events := ev1 |}) ->
  explain_from total i (text :: rest) acc w
  = explain_from total (i + 1) rest (acc ++ [e])
      {| remote := st1; fs := fs w; events := ev1 ++ pacing_events i |}.
Proof.
  intros Ht Hg. rewrite explain_from_cons, Ht.
  unfold bind at 1. unfold emit at 1. cbv beta iota.
  unfold bind at 1. rewrite Hg.
  unfold pacing_events. destruct ((i + 1) mod 3 =? 0).
  - unfold bind at 1. unfold bind at 1. unfold logging, sleep, emit. simpl.
    rewrite <- app_assoc. reflexivity.
  - unfold bind at 1. unfold sleep, emit. simpl. reflexivity.
Qed.

(** The loop never raises.  It appends one explanation per non-empty text,
    in order, writes no file, and sleeps once at the pacing site after each
    slide it processes. *)
Lemma explain_from_returns total texts : forall i acc w,
  exists es st' tr,
    explain_from total i texts acc w
    = (Returned (acc ++ es),
       {| remote := st'; fs := fs w; events := events w ++ tr |})
    /\ Forall2 (fun text e =>
                  explanation text e
                  /\ exists w1 w2, get_explanation text w1 = (Returned e, w2))
               (List.filter truthy texts) es
    /\ writes tr = []
    /\ (Forall (fun t => truthy t = true) texts ->
        sleeps_at Pacing tr = pacing_from i (length texts)).
Proof.
  induction texts as [|text rest IH]; intros i acc w.
  - exists [], (remote w), []. simpl. unfold ret.
    rewrite trace_app_nil, app_nil_r. repeat split; auto.
  - destruct (truthy text) eqn:Ht.
    + set (w0 := {| remote := remote w; fs := fs w;
                    events := events w ++ [submitting i total] |}).
      destruct (get_explanation_returns text w0)
        as (e & st1 & tr1 & Hg & Hp1 & Hw1 & _ & _ & He).
      rewrite (explain_from_step total i text rest acc w e st1 _ Ht Hg).
      match goal with |- context [explain_from total (i + 1) rest ?a ?w1] =>
        destruct (IH (i + 1) a w1) as (es & st2 & tr2 & Hb & Hf & Hw2 & Hp2) end.
      destruct (pacing_events_read i) as (Hpp & Hpw & _).
      exists (e :: es), st2, ([submitting i total] ++ tr1 ++ pacing_events i ++ tr2).
      split.
      { rewrite Hb. simpl. rewrite <- !app_assoc. reflexivity. }
      split.
      { simpl. rewrite Ht. constructor; [|exact Hf].
        split; [exact He|]. exists w0. eexists. exact Hg. }
      split.
      { rewrite !writes_app, Hw1, Hpw, Hw2. reflexivity. }
      intros Hall. inversion Hall as [|? ? _ Hrest]; subst.
      rewrite !sleeps_at_app, Hp1, Hpp, (Hp2 Hrest). reflexivity.
    + rewrite (explain_from_skip _ _ _ _ _ _ Ht).
      destruct (IH (i + 1) acc w) as (es & st2 & tr2 & Hb & Hf & Hw2 & Hp2).
      exists es, st2, tr2. split; [exact Hb|]. split; [simpl; rewrite Ht; exact Hf|].
      split; [exact Hw2|].
      intros Hall. inversion Hall as [|? ? Habs _]; subst. congruence.
Qed.

Lemma pacing_from_seq (n : nat) : forall k : nat,
  pacing_from (Z.of_nat k) n
  = map (fun j => if Z.of_nat j mod 3 =? 0 then 60 else 20) (seq (S k) n).
Proof.
  induction n as [|n IH]; intros k; simpl; [reflexivity|].
  replace (Z.of_nat k + 1) with (Z.of_nat (S k)) by lia.
  rewrite IH. reflexivity.
Qed.

Lemma pacing_from_zero (n : nat) : pacing_from 0 n = pacing n.
Proof. apply (pacing_from_seq n 0). Qed.

Lemma filter_truthy_all_texts (ppt : presentation) :
  List.filter truthy (all_texts_of ppt) = all_texts_of ppt.
Proof.
  pose proof (all_texts_truthy ppt) as Hall.
  induction Hall as [|t l Ht _ IH]; simpl; [reflexivity|].
  rewrite Ht, IH. reflexivity.
Qed.

(** ** process_presentation *)

Lemma process_presentation_loaded file_path ppt w :
  fs w !! file_path = Some (Pptx ppt) ->
  exists es st' tr,
    process_presentation file_path w
    = (Returned es,
       {| remote := st'; fs := fs w;
          events := events w
                    ++ [Log INFO (lit "Processing presentation: " ++ file_path)]
                    ++ tr |})
    /\ Forall2 (fun text e =>
                  explanation text e
                  /\ exists w1 w2, get_explanation text w1 = (Returned e, w2))
               (all_texts_of ppt) es
    /\ writes tr = []
    /\ sleeps_at Pacing tr = pacing (length (all_texts_of ppt)).
Proof.
  intros Hfs. unfold process_presentation.
  unfold bind at 1. unfold logging at 1, emit. cbv beta iota.
  unfold bind at 1. unfold Presentation. cbn [fs]. rewrite Hfs.
  match goal with |- context [explain_from ?t 0 ?l [] ?w0] =>
    destruct (explain_from_returns t l 0 [] w0) as (es & st' & tr & Hb & Hf & Hw & Hp) end.
  exists es, st', tr. split.
  { rewrite Hb. simpl. rewrite <- app_assoc. reflexivity. }
  rewrite filter_truthy_all_texts in Hf.
  repeat split; auto.
  rewrite (Hp (all_texts_truthy ppt)). apply pacing_from_zero.
Qed.

(** A path that holds no deck makes [Presentation] raise, and the exception
    leaves [process_presentation]. *)
Lemma process_presentation_missing file_path w :
  (forall ppt, fs w !! file_path <> Some (Pptx ppt)) ->
  exists e,
    process_presentation file_path w
    = (Raised e,
       {| remote := remote w; fs := fs w;
          events := events w
                    ++ [Log INFO (lit "Processing presentation: " ++ file_path)] |}).
Proof.
  intros Hfs. unfold process_presentation.
  unfold bind at 1. unfold logging at 1, emit. cbv beta iota.
  unfold bind at 1. unfold Presentation. cbn [fs].
  destruct (fs w !! file_path) as [[ppt|d]|] eqn:E.
  - exfalso. exact (Hfs ppt eq_refl).
  - eexists. reflexivity.
  - eexists. reflexivity.
Qed.

(** An answer whose content can be read ends the call at once. *)
Lemma get_explanation_answered text w r st' c :
  create (the_request text) (remote w) = (Returned r, st') ->
  read_content r = Returned c ->
  get_explanation text w
  = (Returned (strip c),
     {| remote := st'; fs := fs w;
        events := events w ++
          [Request (the_request text);
           Log INFO (lit "Received explanation: " ++ firstn 60 (strip c) ++ lit "...")] |}).
Proof.
  intros Hc Hr. unfold get_explanation, get_explanation_with.
  change (Z.to_nat 5) with 5%nat.
  rewrite (attempts_step _ _ _ _ _ _ (attempt_answered text 1 w r st' c Hc Hr)).
  reflexivity.
Qed.

(** So does an answer whose content cannot be read. *)
Lemma get_explanation_unreadable text w r st' m :
  create (the_request text) (remote w) = (Returned r, st') ->
  read_content r = Raised (OtherException m) ->
  get_explanation text w
  = (Returned (lit "Error processing slide: " ++ m),
     {| remote := st'; fs := fs w;
        events := events w ++
          [Request (the_request text);
           Log ERROR (lit "Error processing slide: " ++ m)] |}).
Proof.
  intros Hc Hr. unfold get_explanation, get_explanation_with.
  change (Z.to_nat 5) with 5%nat.
  rewrite (attempts_step _ _ _ _ _ _ (attempt_unreadable text 1 w r st' m Hc Hr)).
  reflexivity.
Qed.

Lemma read_mapping_choice (c : str) : read_content (mapping_choice c) = Returned c.
Proof.
  unfold read_content, mapping_choice, subscript_content. cbn [choices message].
  rewrite lookup_insert_ne by (vm_compute; discriminate).
  rewrite lookup_singleton_eq. reflexivity.
Qed.

Lemma read_one_choice (c : str) :
  read_content (one_choice c) = Raised (OtherException not_subscriptable).
Proof. reflexivity. Qed.

(** The outcome of an attempt depends on the world through the state of the
    service only, and so does what it appends to the trace. *)
Lemma attempt_frame text delay (w w2 : world) :
  remote w2 = remote w ->
  exists r st' tr,
    attempt text delay w
    = (Returned r, {| remote := st'; fs := fs w; events := events w ++ tr |})
    /\ attempt text delay w2
       = (Returned r, {| remote := st'; fs := fs w2; events := events w2 ++ tr |}).
Proof.
  intros Hrem.
  destruct (create (the_request text) (remote w)) as [[r|e] st'] eqn:Hc.
  - destruct (read_content r) as [c|e] eqn:Hr.
    + eexists _, _, _. split; [apply (attempt_answered _ _ _ _ _ _ Hc Hr)|].
      rewrite <- Hrem in Hc. apply (attempt_answered _ _ _ _ _ _ Hc Hr).
    + destruct (read_content_raises r e Hr) as (m & ->).
      eexists _, _, _. split; [apply (attempt_unreadable _ _ _ _ _ _ Hc Hr)|].
      rewrite <- Hrem in Hc. apply (attempt_unreadable _ _ _ _ _ _ Hc Hr).
  - destruct e as [m|m|m|m].
    + eexists _, _, _. split; [apply (attempt_rate_limited _ _ _ _ _ Hc)|].
      rewrite <- Hrem in Hc. apply (attempt_rate_limited _ _ _ _ _ Hc).
    + eexists _, _, _. split; [apply (attempt_unreachable _ _ _ _ _ Hc)|].
      rewrite <- Hrem in Hc. apply (attempt_unreachable _ _ _ _ _ Hc).
    + eexists _, _, _. split; [apply (attempt_api_error _ _ _ _ _ Hc)|].
      rewrite <- Hrem in Hc. apply (attempt_api_error _ _ _ _ _ Hc).
    + eexists _, _, _. split; [apply (attempt_other _ _ _ _ _ Hc)|].
      rewrite <- Hrem in Hc. apply (attempt_other _ _ _ _ _ Hc).
Qed.

Lemma attempts_frame text n : forall delay (w w2 : world),
  remote w2 = remote w ->
  exists s st' tr,
    attempts text n delay w
    = (Returned s, {| remote := st'; fs := fs w; events := events w ++ tr |})
    /\ attempts text n delay w2
       = (Returned s, {| remote := st'; fs := fs w2; events := events w2 ++ tr |}).
Proof.
  induction n as [|n IH]; intros delay w w2 Hrem.
  - exists failed_after_retries, (remote w), []. simpl. unfold ret.
    rewrite trace_app_nil. split; [reflexivity|].
    rewrite <- Hrem, trace_app_nil. reflexivity.
  - destruct (attempt_frame text delay w w2 Hrem) as (r & st1 & tr1 & Ha & Ha2).
    rewrite (attempts_step _ _ _ _ _ _ Ha), (attempts_step _ _ _ _ _ _ Ha2).
    destruct r as [s|delay'].
    + exists s, st1, tr1. split; reflexivity.
    + destruct (IH delay'
                   {| remote := st1; fs := fs w; events := events w ++ tr1 |}
                   {| remote := st1; fs := fs w2; events := events w2 ++ tr1 |}
                   eq_refl) as (s & st2 & tr2 & Hb & Hb2).
      exists s, st2, (tr1 ++ tr2). cbn [fs events] in Hb, Hb2.
      rewrite <- app_assoc in Hb, Hb2. split; assumption.
Qed.

(** The loop of [process_presentation] returns the explanations of its
    texts, asked one after the other of the service in the state in which
    the loop finds it. *)
Lemma explain_from_answers total texts : forall i acc w,
  exists w',
    explain_from total i texts acc w
    = (Returned (acc ++ explanations_for (List.filter truthy texts) (remote w)), w')
    /\ remote w' = remote_after (List.filter truthy texts) (remote w).
Proof.
  induction texts as [|text rest IH]; intros i acc w.
  - exists w. simpl. unfold ret. rewrite app_nil_r. split; reflexivity.
  - destruct (truthy text) eqn:Ht.
    + set (w0 := {| remote := remote w; fs := fs w;
                    events := events w ++ [submitting i total] |}).
      destruct (attempts_frame text 5 1 (blank (remote w)) w0 eq_refl)
        as (e & st1 & tr1 & Hblank & Hg).
      change (attempts text 5 1 w0) with (get_explanation text w0) in Hg.
      change (attempts text 5 1 (blank (remote w)))
        with (get_explanation text (blank (remote w))) in Hblank.
      rewrite (explain_from_step total i text rest acc w e st1 _ Ht Hg).
      match goal with |- context [explain_from total (i + 1) rest ?a ?w1] =>
        destruct (IH (i + 1) a w1) as (w' & Hb & Hrem) end.
      exists w'. cbn [List.filter]. rewrite Ht. cbn [explanations_for remote_after].
      rewrite Hblank. cbn [remote snd] in *. rewrite Hb, <- app_assoc.
      split; [reflexivity | exact Hrem].
    + rewrite (explain_from_skip _ _ _ _ _ _ Ht).
      destruct (IH (i + 1) acc w) as (w' & Hb & Hrem).
      exists w'. cbn [List.filter]. rewrite Ht. split; assumption.
Qed.

Lemma process_presentation_answers file_path ppt w :
  fs w !! file_path = Some (Pptx ppt) ->
  exists w',
    process_presentation file_path w
    = (Returned (explanations_for (all_texts_of ppt) (remote w)), w')
    /\ remote w' = remote_after (all_texts_of ppt) (remote w).
Proof.
  intros Hfs. unfold process_presentation.
  unfold bind at 1. unfold logging at 1, emit. cbv beta iota.
  unfold bind at 1. unfold Presentation. cbn [fs]. rewrite Hfs.
  match goal with |- context [explain_from ?t 0 ?l [] ?w0] =>
    destruct (explain_from_answers t l 0 [] w0) as (w' & Hb & Hrem) end.
  rewrite filter_truthy_all_texts in Hb, Hrem.
  exists w'. split; [exact Hb | exact Hrem].
Qed.

(** The i-th of the explanations asked one after the other. *)
Lemma explanations_for_lookup (texts : list str) : forall (st : St) (i : nat) (t : str),
  texts !! i = Some t ->
  exists e w1,
    explanations_for texts st !! i = Some e
    /\ get_explanation t (blank (remote_after (take i texts) st)) = (Returned e, w1).
Proof.
  induction texts as [|t0 rest IH]; intros st i t Hi; [discriminate|].
  destruct (get_explanation_returns t0 (blank st))
    as (e0 & st1 & tr1 & Hg & _).
  destruct i as [|i].
  - simpl in Hi. inversion Hi; subst. exists e0. eexists.
    cbn [explanations_for take remote_after]. rewrite Hg. split; reflexivity.
  - simpl in Hi. destruct (IH st1 i t Hi) as (e & w1 & He & Hrun).
    exists e, w1. cbn [explanations_for take remote_after]. rewrite Hg.
    cbn [remote snd]. split; [exact He | exact Hrun].
Qed.

Lemma explanations_for_length (texts : list str) : forall st : St,
  length (explanations_for texts st) = length texts.
Proof.
  induction texts as [|t rest IH]; intros st; [reflexivity|].
  destruct (get_explanation_returns t (blank st)) as (e & st1 & tr1 & Hg & _).
  cbn [explanations_for]. rewrite Hg. cbn [length]. rewrite IH. reflexivity.
Qed.

(** With a stand-in service whose answer is a mapping holding a function of
    the request, the explanations are that function's values, trimmed. *)
Lemma explanations_for_mapping (reply : request -> str) (texts : list str) :
  (forall req st, exists st',
      create req st = (Returned (mapping_choice (reply req)), st')) ->
  forall st, explanations_for texts st
             = map (fun t => strip (reply (the_request t))) texts.
Proof.
  intros Hpure. induction texts as [|t rest IH]; intros st; [reflexivity|].
  destruct (Hpure (the_request t) st) as (st' & Hc).
  cbn [explanations_for map].
  rewrite (get_explanation_answered t (blank st) _ st' _ Hc (read_mapping_choice _)).
  cbn [remote]. rewrite IH. reflexivity.
Qed.

(** ** save_explanations, main and the script *)

Lemma save_explanations_run file_path explanations w :
  save_explanations file_path explanations w
  = (Returned tt,
     {| remote := remote w;
        fs := <[output_path file_path := Text (json_dumps explanations)]> (fs w);
        events := events w
                  ++ [Log INFO (lit "Saving explanations to " ++ output_path file_path);
                      Write (output_path file_path) (json_dumps explanations)] |}).
Proof.
  unfold save_explanations. run. rewrite <- app_assoc. reflexivity.
Qed.

Lemma main_loaded file_path ppt w :
  fs w !! file_path = Some (Pptx ppt) ->
  exists es st' tr,
    main file_path w
    = (Returned tt,
       {| remote := st';
          fs := <[output_path file_path := Text (json_dumps es)]> (fs w);
          events := events w
                    ++ [Log INFO (lit "Processing presentation: " ++ file_path)]
                    ++ tr
                    ++ [Log INFO (lit "Saving explanations to " ++ output_path file_path);
                        Write (output_path file_path) (json_dumps es);
                        Log INFO (lit "Explanations saved to " ++ output_path file_path)] |})
    /\ process_presentation file_path w
       = (Returned es,
          {| remote := st'; fs := fs w;
             events := events w
                       ++ [Log INFO (lit "Processing presentation: " ++ file_path)]
                       ++ tr |})
    /\ Forall2 (fun text e =>
                  explanation text e
                  /\ exists w1 w2, get_explanation text w1 = (Returned e, w2))
               (all_texts_of ppt) es
    /\ writes tr = []
    /\ sleeps_at Pacing tr = pacing (length (all_texts_of ppt)).
Proof.
  intros Hfs.
  destruct (process_presentation_loaded file_path ppt w Hfs)
    as (es & st' & tr & Hp & Hf & Hw & Hs).
  exists es, st', tr. split; [|auto].
  unfold main. unfold bind at 1. rewrite Hp.
  unfold bind at 1. rewrite save_explanations_run.
  unfold logging, emit, output_path. simpl.
  rewrite <- !app_assoc. reflexivity.
Qed.

(** ** The dumped JSON *)

Local Open Scope N_scope.

Lemma hex_digit_printable (n : N) :
  n < 16 -> 0x20 <= hex_digit n <= 0x7E /\ hex_digit n <> 0x0A.
Proof. intros Hn. unfold hex_digit. destruct (n <? 10) eqn:E; lia. Qed.

Lemma u_escape_no_newline (n : N) : Forall (fun x => x <> 0x0A) (u_escape n).
Proof.
  unfold u_escape, hex4. simpl.
  repeat constructor; try discriminate;
    apply hex_digit_printable; apply N.mod_lt; discriminate.
Qed.

Lemma escape_char_no_newline (c : N) : Forall (fun x => x <> 0x0A) (escape_char c).
Proof.
  unfold escape_char.
  repeat match goal with
         | |- context [if ?b then _ else _] => destruct b eqn:?
         end;
    try (repeat constructor; discriminate);
    try apply u_escape_no_newline.
  - repeat constructor. apply N.eqb_neq. assumption.
  - apply Forall_app; split; apply u_escape_no_newline.
Qed.

Lemma encode_str_no_newline (s : str) : Forall (fun x => x <> 0x0A) (encode_str s).
Proof.
  unfold encode_str. apply Forall_app. split; [repeat constructor; discriminate|].
  apply Forall_app. split; [|repeat constructor; discriminate].
  induction s as [|c s IH]; simpl; [constructor|].
  apply Forall_app. split; [apply escape_char_no_newline | exact IH].
Qed.

Lemma split_lines_one (a : str) :
  Forall (fun x => x <> 0x0A) a -> split_lines a = [a].
Proof.
  induction 1 as [|c a Hc _ IH]; simpl; [reflexivity|].
  apply N.eqb_neq in Hc. rewrite Hc, IH. reflexivity.
Qed.

Lemma split_lines_cut (a b : str) :
  Forall (fun x => x <> 0x0A) a ->
  split_lines (a ++ [0x0A] ++ b) = a :: split_lines b.
Proof.
  induction 1 as [|c a Hc _ IH]; simpl; [reflexivity|].
  apply N.eqb_neq in Hc. rewrite Hc. simpl in IH. rewrite IH. reflexivity.
Qed.

Lemma item_line_no_newline (x suffix : str) :
  Forall (fun x => x <> 0x0A) suffix ->
  Forall (fun x => x <> 0x0A) (lit "    " ++ encode_str x ++ suffix).
Proof.
  intros Hs. apply Forall_app. split; [repeat constructor; discriminate|].
  apply Forall_app. split; [apply encode_str_no_newline | exact Hs].
Qed.

Lemma split_lines_items (xs : list str) : forall x,
  split_lines
    (lit "    " ++ encode_str x
     ++ flat_map (fun y => lit "," ++ newline_indent ++ encode_str y) xs
     ++ [0x0A] ++ lit "]")
  = item_lines (x :: xs) ++ [lit "]"].
Proof.
  induction xs as [|y ys IH]; intros x.
  - transitivity (split_lines ((lit "    " ++ encode_str x ++ []) ++ [0x0A] ++ lit "]")).
    { f_equal. rewrite <- !app_assoc. reflexivity. }
    rewrite split_lines_cut by (apply item_line_no_newline; constructor).
    rewrite split_lines_one by (repeat constructor; discriminate).
    rewrite app_nil_r. reflexivity.
  - cbn [flat_map item_lines].
    transitivity (split_lines ((lit "    " ++ encode_str x ++ lit ",") ++ [0x0A]
                    ++ (lit "    " ++ encode_str y
                        ++ flat_map (fun y => lit "," ++ newline_indent ++ encode_str y) ys
                        ++ [0x0A] ++ lit "]"))).
    { f_equal. unfold newline_indent. rewrite <- !app_assoc. reflexivity. }
    rewrite split_lines_cut.
    + rewrite IH. reflexivity.
    + apply item_line_no_newline. repeat constructor; discriminate.
Qed.

(** Read line by line, the dump is the bracket, the items, the bracket. *)
Lemma split_lines_json_dumps (l : list str) : split_lines (json_dumps l) = json_lines l.
Proof.
  destruct l as [|x xs]; [reflexivity|].
  unfold json_dumps, json_lines.
  transitivity (split_lines (lit "[" ++ [0x0A]
                  ++ (lit "    " ++ encode_str x
                      ++ flat_map (fun y => lit "," ++ newline_indent ++ encode_str y) xs
                      ++ [0x0A] ++ lit "]"))).
  { f_equal. }
  rewrite split_lines_cut by (repeat constructor; discriminate).
  rewrite split_lines_items. reflexivity.
Qed.

(** The i-th item line holds the i-th string. *)
Lemma item_lines_lookup (l : list str) : forall (i : nat) (e : str),
  l !! i = Some e ->
  item_lines l !! i
  = Some (lit "    " ++ encode_str e
          ++ (if (S i =? length l)%nat then [] else lit ",")).
Proof.
  induction l as [|x xs IH]; intros i e Hi; [discriminate|].
  destruct i as [|i]; simpl in Hi.
  - inversion Hi; subst. destruct xs; simpl; [rewrite app_nil_r|]; reflexivity.
  - destruct xs as [|y ys]; [discriminate|].
    change (item_lines (x :: y :: ys) !! S i) with (item_lines (y :: ys) !! i).
    rewrite (IH i e Hi). reflexivity.
Qed.

Lemma item_lines_length (l : list str) : length (item_lines l) = length l.
Proof.
  induction l as [|x xs IH]; [reflexivity|].
  destruct xs; [reflexivity|]. cbn [item_lines length] in *. rewrite IH. reflexivity.
Qed.

(** ** The output path *)

Lemma rfind_from_app c (a b : str) : forall (i : nat) last,
  rfind_from c (a ++ b) i last
  = rfind_from c b (i + length a)%nat (rfind_from c a i last).
Proof.
  induction a as [|x a IH]; intros i last; simpl.
  - rewrite Nat.add_0_r. reflexivity.
  - rewrite IH. f_equal. lia.
Qed.

Lemma rfind_from_absent c (p : str) :
  Forall (fun x => x <> c) p -> forall (i : nat) last, rfind_from c p i last = last.
Proof.
  induction 1 as [|x p Hx _ IH]; intros i last; simpl; [reflexivity|].
  apply N.eqb_neq in Hx. rewrite Hx. apply IH.
Qed.

(** A path made of a directory part, a file name with a character that is
    not a dot, and an extension: [splitext] cuts at the last dot. *)
Lemma splitext_name_ext (dir name ext : str) :
  (dir = [] \/ exists d, dir = d ++ [0x2F]) ->
  Forall (fun x => x <> 0x2F) name ->
  Exists (fun x => x <> 0x2E) name ->
  Forall (fun x => x <> 0x2E /\ x <> 0x2F) ext ->
  splitext (dir ++ name ++ [0x2E] ++ ext) = (dir ++ name, [0x2E] ++ ext).
Proof.
  intros Hdir Hname Hdot Hext.
  assert (HextD : Forall (fun x => x <> 0x2E) ext)
    by (eapply Forall_impl; [exact Hext|]; simpl; tauto).
  assert (HextS : Forall (fun x => x <> 0x2F) ext)
    by (eapply Forall_impl; [exact Hext|]; simpl; tauto).
  assert (Hsep : match rfind 0x2F (dir ++ name ++ [0x2E] ++ ext) with
                 | Some i => S i
                 | None => 0%nat
                 end = length dir).
  { unfold rfind. rewrite rfind_from_app.
    rewrite (rfind_from_absent 0x2F (name ++ [0x2E] ++ ext)).
    - destruct Hdir as [-> | (d & ->)]; [reflexivity|].
      rewrite rfind_from_app. simpl. rewrite length_app. simpl. lia.
    - apply Forall_app. split; [exact Hname|].
      apply Forall_app. split; [repeat constructor; discriminate | exact HextS]. }
  assert (Hd : rfind 0x2E (dir ++ name ++ [0x2E] ++ ext)
               = Some (length (dir ++ name))).
  { unfold rfind. rewrite (app_assoc dir name), rfind_from_app, rfind_from_app.
    simpl. apply rfind_from_absent. exact HextD. }
  unfold splitext. rewrite Hsep, Hd.
  assert (Hle : (length dir <=? length (dir ++ name))%nat = true)
    by (apply Nat.leb_le; rewrite length_app; lia).
  rewrite Hle.
  replace (length (dir ++ name) - length dir)%nat with (length name)
    by (rewrite length_app; lia).
  rewrite drop_app_length, take_app_length.
  assert (Hnot : forallb (fun x => x =? 0x2E) name = false).
  { clear -Hdot. induction Hdot as [x l Hx | x l _ IH]; simpl.
    - apply N.eqb_neq in Hx. rewrite Hx. reflexivity.
    - rewrite IH. apply andb_false_r. }
  rewrite Hnot, (app_assoc dir name), take_app_length, drop_app_length.
  reflexivity.
Qed.

Lemma output_path_name_ext (dir name ext : str) :
  (dir = [] \/ exists d, dir = d ++ [0x2F]) ->
  Forall (fun x => x <> 0x2F) name ->
  Exists (fun x => x <> 0x2E) name ->
  Forall (fun x => x <> 0x2E /\ x <> 0x2F) ext ->
  output_path (dir ++ name ++ [0x2E] ++ ext) = dir ++ name ++ lit ".json".
Proof.
  intros. unfold output_path. rewrite splitext_name_ext by assumption.
  simpl. rewrite <- app_assoc. reflexivity.
Qed.

Local Open Scope Z_scope.

(** ** The script *)

Lemma script_without_key env argv w :
  env !! OPENAI_API_KEY = None ->
  script env argv w
  = (1, {| remote := remote w; fs := fs w;
           events := events w ++ [Log ERROR missing_key_message] |}).
Proof. intros He. unfold script. rewrite He. reflexivity. Qed.

Lemma script_with_key env argv w key file_path :
  env !! OPENAI_API_KEY = Some key ->
  parse_args argv = ArgsOk file_path ->
  script env argv w
  = match main file_path w with
    | (Returned _, w') => (0, w')
    | (Raised _, w') => (1, w')
    end.
Proof. intros He Ha. unfold script. rewrite He, Ha. reflexivity. Qed.

(** A path that holds no deck ends the process with status 1, nothing
    written. *)
Lemma script_deck_missing env argv w key file_path :
  env !! OPENAI_API_KEY = Some key ->
  parse_args argv = ArgsOk file_path ->
  (forall ppt, fs w !! file_path <> Some (Pptx ppt)) ->
  script env argv w
  = (1, {| remote := remote w; fs := fs w;
           events := events w
                     ++ [Log INFO (lit "Processing presentation: " ++ file_path)] |}).
Proof.
  intros He Ha Hfs. rewrite (script_with_key _ _ _ _ _ He Ha).
  destruct (process_presentation_missing file_path w Hfs) as (e & Hp).
  unfold main. unfold bind at 1. rewrite Hp. reflexivity.
Qed.

(** * The claims *)

(** C2.  With a collaborator that raises a connection error on every call,
    [get_explanation] makes exactly 5 requests, sleeps the back-off delays
    1, 2, 4, 8 and 16 seconds, one after each failed request, and then
    returns the fixed fallback string.  For any retry budget the k-th delay
    is [min (2^k) 60]: it doubles after each failure and is capped at 60. *)
Theorem retry_exhaustion text w :
  (forall req st, exists m st', create req st = (Raised (APIConnectionError m), st')) ->
  (exists st' tr,
     get_explanation text w
     = (Returned (lit "Failed to get explanation after several retries due to rate limits."),
        {| remote := st'; fs := fs w; events := events w ++ tr |})
     /\ actions tr
        = [Request (the_request text); Sleep Backoff 1;
           Request (the_request text); Sleep Backoff 2;
           Request (the_request text); Sleep Backoff 4;
           Request (the_request text); Sleep Backoff 8;
           Request (the_request text); Sleep Backoff 16])
  /\ (forall retries, exists st' tr,
        get_explanation_with text retries w
        = (Returned failed_after_retries,
           {| remote := st'; fs := fs w; events := events w ++ tr |})
        /\ requests tr = repeat (the_request text) (Z.to_nat retries)
        /\ sleeps_at Backoff tr
           = map (fun k => Z.min (2 ^ Z.of_nat k) 60) (seq 0 (Z.to_nat retries))
        /\ sleeps_at RateLimitWait tr = []
        /\ sleeps_at Pacing tr = []).
Proof.
  intros Hdown. split.
  - destruct (attempts_unreachable text Hdown 5 1 w) as (st' & tr & Hrun & Hact).
    exists st', tr. split; [exact Hrun | exact Hact].
  - intros retries.
    destruct (attempts_unreachable text Hdown (Z.to_nat retries) 1 w)
      as (st' & tr & Hrun & Hact).
    exists st', tr. split; [exact Hrun|].
    destruct (backoff_actions_read (the_request text)
                (backoff_delays 1 (Z.to_nat retries))) as (Hr & Hb & Hl & Hp & _).
    rewrite <- Hact in Hr, Hb, Hl, Hp.
    rewrite requests_actions in Hr. rewrite sleeps_at_actions in Hb, Hl, Hp.
    rewrite backoff_delays_length in Hr. rewrite backoff_delays_pow in Hb.
    auto.
Qed.

(** C3.  Whatever the collaborator does on each call (an answer, with or
    without a choice, or an exception of any of the four categories),
    [get_explanation] returns a string and does not raise; the string is a
    real explanation or a fallback message.  Hence the loop over the
    extracted texts does not raise either and produces, in order, one such
    string for every non-empty text. *)
Theorem get_explanation_never_raises text retries w :
  (exists s w', get_explanation_with text retries w = (Returned s, w')
                /\ explanation text s)
  /\ (forall total i texts acc,
        exists es w',
          explain_from total i texts acc w = (Returned (acc ++ es), w')
          /\ Forall2 explanation (List.filter truthy texts) es).
Proof.
  split.
  - destruct (attempts_returns text (Z.to_nat retries) 1 w)
      as (s & st' & tr & Hrun & _ & _ & _ & _ & He).
    exists s. eexists. split; [exact Hrun | exact He].
  - intros total i texts acc.
    destruct (explain_from_returns total texts i acc w)
      as (es & st' & tr & Hrun & Hf & _).
    exists es. eexists. split; [exact Hrun|].
    eapply Forall2_impl; [exact Hf|]. intros t e [He _]. exact He.
Qed.

(** C4.  On a rate-limit error an attempt sleeps exactly 60 seconds and hands
    the back-off delay on unchanged; with a collaborator that is rate
    limited on its first two calls and then answers, [get_explanation]
    pauses twice for 60 seconds and makes its third attempt with the
    initial delay 1.  What it then returns is not the trimmed answer when
    the answer comes from the client of the script: the message is a
    [ChatCompletionMessage], the subscript [message['content']] raises a
    [TypeError], and the call returns the fallback made from that error.
    The trimmed content is returned only for a message whose content can
    be read by subscript. *)
Theorem rate_limit_keeps_delay text w :
  (forall delay m st',
      create (the_request text) (remote w) = (Raised (RateLimitError m), st') ->
      attempt text delay w
      = (Returned (inr delay),
         {| remote := st'; fs := fs w;
            events := events w ++
              [Request (the_request text);
               Log WARNING
                 (lit "Rate limit exceeded. Waiting for 1 minute before retrying...");
               Sleep RateLimitWait 60] |}))
  /\ (forall m1 st1 m2 st2 r st3,
        create (the_request text) (remote w) = (Raised (RateLimitError m1), st1) ->
        create (the_request text) st1 = (Raised (RateLimitError m2), st2) ->
        create (the_request text) st2 = (Returned r, st3) ->
        exists w2,
          get_explanation text w = attempts text 3 1 w2
          /\ remote w2 = st2 /\ fs w2 = fs w
          /\ actions (events w2)
             = actions (events w)
               ++ [Request (the_request text); Sleep RateLimitWait 60;
                   Request (the_request text); Sleep RateLimitWait 60]
          /\ (forall ro co cs,
                choices r = {| message := ChatCompletionMessage ro co |} :: cs ->
                get_explanation text w
                = (Returned (lit "Error processing slide: "
                             ++ lit "'ChatCompletionMessage' object is not subscriptable"),
                   {| remote := st3; fs := fs w;
                      events := events w2 ++
                        [Request (the_request text);
                         Log ERROR
                           (lit "Error processing slide: "
                            ++ lit "'ChatCompletionMessage' object is not subscriptable")] |}))
          /\ (forall c,
                read_content r = Returned c ->
                get_explanation text w
                = (Returned (strip c),
                   {| remote := st3; fs := fs w;
                      events := events w2 ++
                        [Request (the_request text);
                         Log INFO (lit "Received explanation: "
                                   ++ firstn 60 (strip c) ++ lit "...")] |}))).
Proof.
  split.
  - intros delay m st' Hc. apply (attempt_rate_limited _ _ _ _ _ Hc).
  - intros m1 st1 m2 st2 r st3 H1 H2 H3.
    unfold get_explanation, get_explanation_with. change (Z.to_nat 5) with 5%nat.
    rewrite (attempts_step _ _ _ _ _ _ (attempt_rate_limited text 1 w m1 st1 H1)).
    match goal with |- context [attempts text 4 1 ?w1] =>
      rewrite (attempts_step _ _ _ _ _ _ (attempt_rate_limited text 1 w1 m2 st2 H2))
    end.
    match goal with |- context [attempts text 3 1 ?w2] => exists w2 end.
    split; [reflexivity|]. split; [reflexivity|]. split; [reflexivity|].
    split; [cbn [events]; rewrite !actions_app; rewrite <- app_assoc; reflexivity|].
    split.
    + intros ro co cs Hr.
      match goal with |- context [attempts text 3 1 ?w2] =>
        rewrite (attempts_step _ _ _ _ _ _
                   (attempt_unreadable text 1 w2 r st3 not_subscriptable H3
                      ltac:(unfold read_content; rewrite Hr; reflexivity)))
      end.
      reflexivity.
    + intros c Hr.
      match goal with |- context [attempts text 3 1 ?w2] =>
        rewrite (attempts_step _ _ _ _ _ _ (attempt_answered text 1 w2 r st3 c H3 Hr))
      end.
      reflexivity.
Qed.

(** C5.  When the first call raises an exception that is neither a
    rate-limit, nor a connection, nor a generic API error,
    [get_explanation] makes no further attempt and does not sleep: it
    returns at once the fallback string that embeds the exception's
    description. *)
Theorem unexpected_error_short_circuit text retries w m st' :
  0 < retries ->
  create (the_request text) (remote w) = (Raised (OtherException m), st') ->
  get_explanation_with text retries w
  = (Returned (lit "Error processing slide: " ++ m),
     {| remote := st'; fs := fs w;
        events := events w ++
          [Request (the_request text);
           Log ERROR (lit "Error processing slide: " ++ m)] |}).
Proof.
  intros Hpos Hc. unfold get_explanation_with.
  destruct (Z.to_nat retries) as [|n] eqn:E; [lia|].
  rewrite (attempts_step _ _ _ _ _ _ (attempt_other text 1 w m st' Hc)).
  reflexivity.
Qed.


(** C6, as amended.  The extractor yields, in document order, one string per
    slide: the text of every shape that has a text attribute, each followed
    by one space, concatenated and trimmed.  Slides whose string is empty are
    left out, so no extracted text is empty; a slide is left out exactly
    when the plain concatenation of its texts is empty after trimming. *)
Theorem extractor_output (ppt : presentation) :
  all_texts_of ppt = List.filter truthy (map extract_text_from_slide (slides ppt))
  /\ (forall sl,
        extract_text_from_slide sl
        = strip (flat_map (fun sh => match text sh with
                                     | Some t => t ++ lit " "
                                     | None => []
                                     end) (shapes sl)))
  /\ Forall (fun t => t <> []) (all_texts_of ppt)
  /\ (forall sl, extract_text_from_slide sl = [] <-> extract_as_specified sl = []).
Proof.
  split; [apply all_texts_of_filter|].
  split; [apply extract_text_from_slide_eq|].
  split; [|apply extract_empty_iff].
  eapply Forall_impl; [apply all_texts_truthy|].
  intros t Ht. apply truthy_true. exact Ht.
Qed.

(** C7.  For every loadable deck, the list returned by the run has as many
    elements as there are slides with a non-empty extracted text, and its
    i-th element is the explanation of the i-th such text: what
    [get_explanation] returns for that text with the service in the state
    in which the calls for the texts before it, made in document order,
    have left it.  In particular, with a stand-in service that answers
    every request with a mapping whose content is a function of the
    request, the list is that function's values, trimmed, in slide order. *)
Theorem run_result_follows_slides file_path ppt w :
  fs w !! file_path = Some (Pptx ppt) ->
  exists es w',
    process_presentation file_path w = (Returned es, w')
    /\ length es
       = length (List.filter truthy (map extract_text_from_slide (slides ppt)))
    /\ es = explanations_for
              (List.filter truthy (map extract_text_from_slide (slides ppt)))
              (remote w)
    /\ remote w'
       = remote_after
           (List.filter truthy (map extract_text_from_slide (slides ppt)))
           (remote w)
    /\ (forall (i : nat) (t : str),
          List.filter truthy (map extract_text_from_slide (slides ppt)) !! i = Some t ->
          exists e w1,
            es !! i = Some e
            /\ get_explanation t
                 (blank (remote_after
                           (take i (List.filter truthy
                                      (map extract_text_from_slide (slides ppt))))
                           (remote w)))
               = (Returned e, w1))
    /\ (forall reply : request -> str,
          (forall req st, exists st',
              create req st = (Returned (mapping_choice (reply req)), st')) ->
          es = map (fun t => strip (reply (the_request t)))
                   (List.filter truthy (map extract_text_from_slide (slides ppt)))).
Proof.
  intros Hfs.
  destruct (process_presentation_answers file_path ppt w Hfs) as (w' & Hrun & Hrem).
  rewrite all_texts_of_filter in Hrun, Hrem.
  eexists. exists w'. split; [exact Hrun|].
  split; [apply explanations_for_length|].
  split; [reflexivity|]. split; [exact Hrem|]. split.
  - intros i t Hi. apply explanations_for_lookup. exact Hi.
  - intros reply Hpure. apply explanations_for_mapping. exact Hpure.
Qed.

(** C10.  When no slide of the deck has a non-empty extracted text (a deck
    without slides included), the run sends no request and does not sleep:
    it only logs, and writes the empty JSON array to the output file. *)
Theorem blank_deck_run file_path ppt w :
  fs w !! file_path = Some (Pptx ppt) ->
  Forall (fun sl => extract_text_from_slide sl = []) (slides ppt) ->
  main file_path w
  = (Returned tt,
     {| remote := remote w;
        fs := <[output_path file_path := Text (lit "[]")]> (fs w);
        events := events w ++
          [Log INFO (lit "Processing presentation: " ++ file_path);
           Log INFO (lit "Saving explanations to " ++ output_path file_path);
           Write (output_path file_path) (lit "[]");
           Log INFO (lit "Explanations saved to " ++ output_path file_path)] |}).
Proof.
  intros Hfs Hblank.
  assert (Hnone : all_texts_of ppt = []).
  { unfold all_texts_of. induction Hblank as [|sl l Hsl _ IH]; simpl; [reflexivity|].
    rewrite Hsl. exact IH. }
  unfold main, process_presentation.
  unfold bind at 1. unfold bind at 1. unfold logging at 1, emit. cbv beta iota.
  unfold bind at 1. unfold Presentation. cbn [fs]. rewrite Hfs, Hnone.
  cbn [explain_from length]. unfold ret.
  unfold bind at 1. rewrite save_explanations_run.
  unfold logging, emit, output_path. simpl. rewrite <- !app_assoc. reflexivity.
Qed.

Lemma json_lines_lookup (l : list str) (i : nat) (e : str) :
  l !! i = Some e ->
  json_lines l !! S i
  = Some (lit "    " ++ encode_str e
          ++ (if (S i =? length l)%nat then [] else lit ",")).
Proof.
  intros Hi. destruct l as [|x xs]; [discriminate|].
  unfold json_lines.
  change (([lit "["] ++ item_lines (x :: xs) ++ [lit "]"]) !! S i)
    with ((item_lines (x :: xs) ++ [lit "]"]) !! i).
  rewrite lookup_app_l.
  - apply item_lines_lookup. exact Hi.
  - rewrite item_lines_length. apply lookup_lt_Some in Hi. exact Hi.
Qed.


End Proofs.

(** * The claims on sample inputs *)

Lemma retry_exhaustion_witness :
  exists st' tr,
    @get_explanation unreachable (lit "Intro") (@world_with unreachable tt deck4)
    = (Returned (lit "Failed to get explanation after several retries due to rate limits."),
       @Build_world unreachable st' (fs (@world_with unreachable tt deck4))
         (events (@world_with unreachable tt deck4) ++ tr))
    /\ actions tr
       = [Request (the_request (lit "Intro")); Sleep Backoff 1;
          Request (the_request (lit "Intro")); Sleep Backoff 2;
          Request (the_request (lit "Intro")); Sleep Backoff 4;
          Request (the_request (lit "Intro")); Sleep Backoff 8;
          Request (the_request (lit "Intro")); Sleep Backoff 16].
Proof.
  apply (@retry_exhaustion unreachable (lit "Intro") (@world_with unreachable tt deck4)).
  intros req st. eexists _, _. reflexivity.
Defined.

Lemma rate_limit_keeps_delay_witness :
  exists (w2 : @world limited_twice),
    @get_explanation limited_twice (lit "Intro") (@world_with limited_twice 0%nat deck4)
    = @attempts limited_twice (lit "Intro") 3 1 w2
    /\ @remote limited_twice w2 = 2%nat
    /\ actions (events w2)
       = [Request (the_request (lit "Intro")); Sleep RateLimitWait 60;
          Request (the_request (lit "Intro")); Sleep RateLimitWait 60]
    /\ fst (@get_explanation limited_twice (lit "Intro")
              (@world_with limited_twice 0%nat deck4))
       = Returned
           (lit "Error processing slide: 'ChatCompletionMessage' object is not subscriptable")
    /\ fst (@get_explanation limited_twice (lit "Intro")
              (@world_with limited_twice 0%nat deck4))
       <> Returned (lit "A title slide.").
Proof.
  destruct (@rate_limit_keeps_delay limited_twice (lit "Intro")
              (@world_with limited_twice 0%nat deck4)) as [_ Hscenario].
  destruct (Hscenario (lit "Rate limit reached") 1%nat (lit "Rate limit reached") 2%nat
                      (one_choice (lit " A title slide. ")) 3%nat
                      eq_refl eq_refl eq_refl)
    as (w2 & Hrun & Hrem & _ & Hact & Hobject & _).
  exists w2. split; [exact Hrun|]. split; [exact Hrem|]. split; [exact Hact|].
  rewrite (Hobject (lit "assistant") (Some (lit " A title slide. ")) [] eq_refl).
  split; [reflexivity | discriminate].
Defined.

Lemma unexpected_error_short_circuit_witness :
  @get_explanation_with broken (lit "Intro") 5 (@world_with broken tt deck4)
  = (Returned (lit "Error processing slide: boom"),
     @Build_world broken tt (fs (@world_with broken tt deck4))
       [Request (the_request (lit "Intro"));
        Log ERROR (lit "Error processing slide: boom")]).
Proof.
  apply (@unexpected_error_short_circuit broken (lit "Intro") 5
           (@world_with broken tt deck4) (lit "boom") tt); reflexivity.
Defined.



(** C6, as stated, fails: the texts of two shapes are not merely
    concatenated, a space is put between them. *)
Lemma extractor_separates_shapes :
  extract_text_from_slide two_shapes = lit "a b"
  /\ extract_as_specified two_shapes = lit "ab"
  /\ extract_text_from_slide two_shapes <> extract_as_specified two_shapes.
Proof.
  vm_compute. repeat split. discriminate.
Qed.

Lemma run_result_follows_slides_witness :
  exists es w',
    @process_presentation echoing deck_path (@world_with echoing tt deck4)
    = (Returned es, w')
    /\ length es = 4%nat
    /\ es = map (fun t => lit "Explain the following presentation slide content succinctly:"
                          ++ [0x0A; 0x0A] ++ t)
                [lit "Intro"; lit "Goals Scope"; lit "Plan"; lit "Thanks"].
Proof.
  destruct (@run_result_follows_slides echoing deck_path deck4
              (@world_with echoing tt deck4))
    as (es & w' & Hrun & Hlen & _ & _ & _ & Hpure); [vm_compute; reflexivity|].
  exists es, w'. split; [exact Hrun|]. split; [exact Hlen|].
  rewrite (Hpure user_prompt); [vm_compute; reflexivity|].
  intros req st. exists st. reflexivity.
Defined.


Lemma blank_deck_run_witness :
  @main answering deck_path (@world_with answering tt blank_deck)
  = (Returned tt,
     @Build_world answering tt
       (<[lit "talks/deck.json" := Text (lit "[]")]>
          (fs (@world_with answering tt blank_deck)))
       [Log INFO (lit "Processing presentation: talks/deck.pptx");
        Log INFO (lit "Saving explanations to talks/deck.json");
        Write (lit "talks/deck.json") (lit "[]");
        Log INFO (lit "Explanations saved to talks/deck.json")]).
Proof.
  apply (@blank_deck_run answering deck_path blank_deck
           (@world_with answering tt blank_deck)).
  - vm_compute. reflexivity.
  - repeat constructor.
Defined.

(** * Further properties *)

(** ** Trimming *)

Lemma lstrip_head (s : str) c r : lstrip s = c :: r -> isspace c = false.
Proof.
  induction s as [|x s IH]; simpl; [discriminate|].
  destruct (isspace x) eqn:E; [exact IH|].
  intros Heq. inversion Heq; subst. exact E.
Qed.

Lemma lstrip_idem (s : str) : lstrip (lstrip s) = lstrip s.
Proof.
  destruct (lstrip s) as [|c r] eqn:E; [reflexivity|].
  simpl. rewrite (lstrip_head s c r E). reflexivity.
Qed.

Lemma lstrip_app_fixed (a b : str) : a <> [] -> lstrip a = a -> lstrip (a ++ b) = a ++ b.
Proof.
  destruct a as [|c a]; [congruence|]. intros _ Ha.
  pose proof (lstrip_head _ _ _ Ha) as Hc. simpl. rewrite Hc. reflexivity.
Qed.

Lemma rstrip_prefix (s : str) :
  exists p, s = rstrip s ++ p /\ forallb isspace p = true.
Proof.
  unfold rstrip. destruct (lstrip_suffix (rev s)) as (p & Hp & Hs).
  exists (rev p). split.
  - rewrite <- rev_app_distr, <- Hp, rev_involutive. reflexivity.
  - rewrite forallb_rev. exact Hs.
Qed.

Lemma strip_trimmed (s : str) : trimmed (strip s).
Proof.
  unfold trimmed, strip, rstrip. split.
  - destruct (rstrip_prefix (lstrip s)) as (p & Hp & _). unfold rstrip in Hp.
    destruct (rev (lstrip (rev (lstrip s)))) as [|c r] eqn:E; [reflexivity|].
    rewrite Hp in *. simpl in Hp.
    assert (Hc : isspace c = false).
    { apply (lstrip_head s c (r ++ p)). rewrite <- lstrip_idem.
      rewrite lstrip_idem. rewrite Hp at 1. reflexivity. }
    simpl. rewrite Hc. reflexivity.
  - rewrite rev_involutive. apply lstrip_idem.
Qed.

Lemma strip_of_trimmed (t : str) : trimmed t -> strip t = t.
Proof.
  intros [Hl Hr]. unfold strip, rstrip. rewrite Hl, Hr. apply rev_involutive.
Qed.

Lemma strip_idem (s : str) : strip (strip s) = strip s.
Proof. apply strip_of_trimmed, strip_trimmed. Qed.

Lemma trimmed_ends (t : str) :
  trimmed t ->
  (forall c, head t = Some c -> isspace c = false)
  /\ (forall c, last t = Some c -> isspace c = false).
Proof.
  intros [Hl Hr]. split; intros c Hc.
  - destruct t as [|x r]; [discriminate|]. simpl in Hc. inversion Hc; subst.
    apply (lstrip_head _ _ _ Hl).
  - rewrite <- head_reverse in Hc. unfold reverse in Hc. rewrite rev_alt in Hr.
    destruct (rev_append t []) as [|x r] eqn:E; [discriminate|].
    simpl in Hc. inversion Hc; subst. apply (lstrip_head _ _ _ Hr).
Qed.

(** ** The extractor, continued *)

(** Every extracted text is non-empty and trimmed: it neither starts nor
    ends with a whitespace character, and trimming it again changes
    nothing. *)
Theorem extracted_texts_trimmed (ppt : presentation) :
  Forall (fun t => t <> []
                   /\ strip t = t
                   /\ (forall c, head t = Some c -> isspace c = false)
                   /\ (forall c, last t = Some c -> isspace c = false))
         (all_texts_of ppt).
Proof.
  rewrite all_texts_of_filter. apply List.Forall_forall. intros t Ht.
  apply List.filter_In in Ht. destruct Ht as [Hin Htruthy].
  apply List.in_map_iff in Hin. destruct Hin as (sl & <- & _).
  assert (Htr : trimmed (extract_text_from_slide sl))
    by (unfold extract_text_from_slide; apply strip_trimmed).
  split; [apply truthy_true; exact Htruthy|].
  split; [apply strip_of_trimmed; exact Htr|].
  apply trimmed_ends. exact Htr.
Qed.

Lemma flat_map_texts (l : list shape) :
  flat_map (fun sh => match text sh with
                      | Some t => t ++ lit " "
                      | None => []
                      end) l
  = flat_map (fun t => t ++ lit " ") (omap text l).
Proof.
  induction l as [|sh l IH]; simpl; [reflexivity|].
  destruct (text sh); simpl; rewrite IH; reflexivity.
Qed.

Lemma join_space_spaced (ts : list str) :
  ts <> [] -> flat_map (fun t => t ++ lit " ") ts = join_space ts ++ lit " ".
Proof.
  induction ts as [|t rest IH]; [congruence|]. intros _.
  destruct rest as [|u rest]; [simpl; rewrite app_nil_r; reflexivity|].
  change (flat_map (fun t => t ++ lit " ") (t :: u :: rest))
    with ((t ++ lit " ") ++ flat_map (fun t => t ++ lit " ") (u :: rest)).
  rewrite IH by discriminate.
  change (join_space (t :: u :: rest)) with (t ++ lit " " ++ join_space (u :: rest)).
  rewrite <- !app_assoc. reflexivity.
Qed.

Lemma join_space_trimmed (ts : list str) :
  ts <> [] ->
  Forall (fun t => t <> [] /\ trimmed t) ts ->
  join_space ts <> [] /\ trimmed (join_space ts).
Proof.
  induction ts as [|t rest IH]; [congruence|]. intros _ Hall.
  inversion Hall as [|? ? [Hne [Hl Hr]] Hrest]; subst.
  destruct rest as [|u rest]; [simpl; repeat split; assumption|].
  destruct (IH ltac:(discriminate) Hrest) as [Hjne [Hjl Hjr]].
  change (join_space (t :: u :: rest)) with (t ++ lit " " ++ join_space (u :: rest)).
  split; [destruct t; [congruence | discriminate]|].
  split.
  - apply lstrip_app_fixed; assumption.
  - rewrite !rev_app_distr, <- app_assoc. apply lstrip_app_fixed; [|assumption].
    intros Hnil. apply (f_equal (@rev N)) in Hnil.
    rewrite rev_involutive in Hnil. exact (Hjne Hnil).
Qed.

Lemma lstrip_rev_trailing_space (a : str) :
  lstrip (rev (a ++ lit " ")) = lstrip (rev a).
Proof. rewrite rev_app_distr. reflexivity. Qed.

(** When the texts of a slide's shapes are themselves non-empty and trimmed,
    the extracted text is these texts joined by single spaces; shapes
    without a text attribute leave no trace. *)
Theorem extract_joins_texts (sl : slide) :
  Forall (fun t => t <> [] /\ strip t = t) (omap text (shapes sl)) ->
  extract_text_from_slide sl = join_space (omap text (shapes sl)).
Proof.
  intros Hall. rewrite extract_text_from_slide_eq, flat_map_texts.
  destruct (omap text (shapes sl)) as [|t rest] eqn:E; [reflexivity|].
  rewrite join_space_spaced by discriminate.
  assert (Hall' : Forall (fun t => t <> [] /\ trimmed t) (t :: rest)).
  { eapply Forall_impl; [exact Hall|]. intros x [Hne Hs]. split; [exact Hne|].
    rewrite <- Hs. apply strip_trimmed. }
  destruct (join_space_trimmed (t :: rest) ltac:(discriminate) Hall')
    as [Hne [Hl Hr]].
  unfold strip, rstrip. rewrite (lstrip_app_fixed _ _ Hne Hl).
  rewrite lstrip_rev_trailing_space, Hr. apply rev_involutive.
Qed.

Lemma extract_joins_texts_witness :
  extract_text_from_slide
    {| shapes := [ {| text := Some (lit "Goals") |}; picture;
                   {| text := Some (lit "Scope and plan") |} ] |}
  = lit "Goals Scope and plan".
Proof.
  apply (extract_joins_texts
           {| shapes := [ {| text := Some (lit "Goals") |}; picture;
                          {| text := Some (lit "Scope and plan") |} ] |}).
  repeat constructor; discriminate.
Defined.

(** ** get_explanation, continued *)

Section MoreProofs.
Context `{Collaborators}.
Local Open Scope Z_scope.

(** The three ways an attempt can end. *)
Lemma attempt_cases text delay w :
  exists r st' tr,
    attempt text delay w
    = (Returned r, {| remote := st'; fs := fs w; events := events w ++ tr |})
    /\ requests tr = [the_request text]
    /\ sleeps_at Pacing tr = [] /\ writes tr = []
    /\ ((exists s, r = inl s /\ explanation text s
                   /\ sleeps_at Backoff tr = [] /\ sleeps_at RateLimitWait tr = []
                   /\ total_sleep tr = 0)
        \/ (r = inr delay
            /\ sleeps_at Backoff tr = [] /\ sleeps_at RateLimitWait tr = [60]
            /\ total_sleep tr = 60)
        \/ (r = inr (Z.min (delay * 2) 60)
            /\ sleeps_at Backoff tr = [delay] /\ sleeps_at RateLimitWait tr = []
            /\ total_sleep tr = delay)).
Proof.
  destruct (create (the_request text) (remote w)) as [[r|e] st'] eqn:Hc.
  - destruct (read_content r) as [c|e] eqn:Hr.
    + eexists _, _, _. split; [apply (attempt_answered _ _ _ _ _ _ Hc Hr)|].
      repeat split. left. eexists. repeat split.
      eapply real_explanation; eassumption.
    + destruct (read_content_raises r e Hr) as (m & ->).
      eexists _, _, _. split; [apply (attempt_unreadable _ _ _ _ _ _ Hc Hr)|].
      repeat split. left. eexists. repeat split.
      eapply unreadable_fallback; eassumption.
  - destruct e as [m|m|m|m].
    + eexists _, _, _. split; [apply (attempt_rate_limited _ _ _ _ _ Hc)|].
      repeat split. right. left. repeat split.
    + eexists _, _, _. split; [apply (attempt_unreachable _ _ _ _ _ Hc)|].
      repeat split. right. right. repeat split. simpl. lia.
    + eexists _, _, _. split; [apply (attempt_api_error _ _ _ _ _ Hc)|].
      repeat split. right. right. repeat split. simpl. lia.
    + eexists _, _, _. split; [apply (attempt_other _ _ _ _ _ Hc)|].
      repeat split. left. eexists. repeat split.
      eapply error_fallback; eassumption.
Qed.

Lemma total_sleep_app (t1 t2 : list event) :
  total_sleep (t1 ++ t2) = total_sleep t1 + total_sleep t2.
Proof.
  induction t1 as [|e t1 IH]; simpl; [reflexivity|].
  destruct e; rewrite ?IH; lia.
Qed.

(** The shape of every run of the retry loop with [n] attempts left: [m]
    identical requests; [k] back-off sleeps, which are the first [k] values
    of the doubling sequence; [j] rate-limit sleeps of 60 seconds.  Either
    every attempt failed and the fallback is returned, or the last request
    ended the loop. *)
Lemma attempts_shape text n : forall delay w,
  exists s st' tr (k j m : nat),
    attempts text n delay w
    = (Returned s, {| remote := st'; fs := fs w; events := events w ++ tr |})
    /\ requests tr = repeat (the_request text) m
    /\ sleeps_at Backoff tr = backoff_delays delay k
    /\ sleeps_at RateLimitWait tr = repeat 60 j
    /\ ((m = (k + j)%nat /\ m = n /\ s = failed_after_retries)
        \/ (m = S (k + j) /\ (m <= n)%nat)).
Proof.
  induction n as [|n IH]; intros delay w.
  - exists failed_after_retries, (remote w), [], 0%nat, 0%nat, 0%nat.
    simpl. unfold ret. rewrite trace_app_nil. repeat split. left. repeat split.
  - destruct (attempt_cases text delay w)
      as (r & st1 & tr1 & Ha & Hq & _ & _ & Hcase).
    rewrite (attempts_step _ _ _ _ _ _ Ha).
    destruct Hcase as [(s & -> & _ & Hb & Hl & _) | [(-> & Hb & Hl & _) | (-> & Hb & Hl & _)]].
    + exists s, st1, tr1, 0%nat, 0%nat, 1%nat. repeat split; auto.
      right. split; [reflexivity | lia].
    + destruct (IH delay {| remote := st1; fs := fs w; events := events w ++ tr1 |})
        as (s & st2 & tr2 & k & j & m & Hrun & Hq2 & Hb2 & Hl2 & Hend).
      exists s, st2, (tr1 ++ tr2), k, (S j), (S m).
      simpl in Hrun. rewrite <- app_assoc in Hrun. split; [exact Hrun|].
      rewrite requests_app, !sleeps_at_app, Hq, Hq2, Hb, Hb2, Hl, Hl2.
      repeat split. destruct Hend as [(-> & <- & ->) | (-> & Hle)].
      * left. repeat split; lia.
      * right. split; lia.
    + destruct (IH (Z.min (delay * 2) 60)
                   {| remote := st1; fs := fs w; events := events w ++ tr1 |})
        as (s & st2 & tr2 & k & j & m & Hrun & Hq2 & Hb2 & Hl2 & Hend).
      exists s, st2, (tr1 ++ tr2), (S k), j, (S m).
      simpl in Hrun. rewrite <- app_assoc in Hrun. split; [exact Hrun|].
      rewrite requests_app, !sleeps_at_app, Hq, Hq2, Hb, Hb2, Hl, Hl2.
      repeat split. destruct Hend as [(-> & <- & ->) | (-> & Hle)].
      * left. repeat split; lia.
      * right. split; lia.
Qed.

Lemma get_explanation_with_shape text retries w :
  exists s st' tr (k j m : nat),
    get_explanation_with text retries w
    = (Returned s, {| remote := st'; fs := fs w; events := events w ++ tr |})
    /\ requests tr = repeat (the_request text) m
    /\ sleeps_at Backoff tr = map (fun i => Z.min (2 ^ Z.of_nat i) 60) (seq 0 k)
    /\ sleeps_at RateLimitWait tr = repeat 60 j
    /\ sleeps_at Pacing tr = []
    /\ ((m = (k + j)%nat /\ m = Z.to_nat retries /\ s = failed_after_retries)
        \/ (m = S (k + j) /\ (m <= Z.to_nat retries)%nat)).
Proof.
  destruct (attempts_shape text (Z.to_nat retries) 1 w)
    as (s & st' & tr & k & j & m & Hrun & Hq & Hb & Hl & Hend).
  destruct (attempts_returns text (Z.to_nat retries) 1 w)
    as (s0 & st0 & tr0 & Hrun0 & Hp & _).
  unfold get_explanation_with. exists s, st', tr, k, j, m.
  rewrite Hrun in Hrun0. inversion Hrun0 as [[Hs Hst Htr]].
  apply app_inv_head in Htr. subst tr0 s0 st0.
  rewrite backoff_delays_pow in Hb. repeat split; auto.
Qed.

(** Whatever the service does, a call of [get_explanation] with a budget of
    [retries] sends the same request [m] times, [m] at most the budget;
    its back-off sleeps are the first [k] values of 1, 2, 4, ... capped at
    60, its rate-limit sleeps are [j] times 60 seconds; and either all
    attempts failed ([m = k + j] is the whole budget, the fallback is
    returned) or the last request ended the call ([m = k + j + 1]). *)
Theorem get_explanation_shape text retries w :
  exists s st' tr (k j m : nat),
    get_explanation_with text retries w
    = (Returned s, {| remote := st'; fs := fs w; events := events w ++ tr |})
    /\ requests tr = repeat (the_request text) m
    /\ sleeps_at Backoff tr = map (fun i => Z.min (2 ^ Z.of_nat i) 60) (seq 0 k)
    /\ sleeps_at RateLimitWait tr = repeat 60 j
    /\ sleeps_at Pacing tr = []
    /\ ((m = (k + j)%nat /\ m = Z.to_nat retries /\ s = failed_after_retries)
        \/ (m = S (k + j) /\ (m <= Z.to_nat retries)%nat)).
Proof. exact (get_explanation_with_shape text retries w). Qed.

(** With the default budget of 5 the cap of 60 seconds is never reached by
    the back-off: the back-off sleeps of a call are a prefix of 1, 2, 4, 8,
    16. *)
Theorem default_backoff_below_cap text w :
  exists s w' tr (k : nat),
    get_explanation text w = (Returned s, w')
    /\ events w' = events w ++ tr
    /\ (k <= 5)%nat
    /\ sleeps_at Backoff tr = firstn k [1; 2; 4; 8; 16]
    /\ Forall (fun d => 1 <= d <= 16) (sleeps_at Backoff tr).
Proof.
  destruct (attempts_shape text 5 1 w)
    as (s & st' & tr & k & j & m & Hrun & _ & Hb & _ & Hend).
  exists s. eexists. exists tr, k. split; [exact Hrun|]. split; [reflexivity|].
  assert (Hk : (k <= 5)%nat) by (destruct Hend as [(? & ? & _) | (? & ?)]; lia).
  split; [exact Hk|]. rewrite Hb.
  do 6 (destruct k as [|k]; [split; [reflexivity | repeat constructor; lia]|]).
  lia.
Qed.

(** Rate-limit errors use up the same budget as the other failures: with a
    service that is always rate limited, the call sends [retries] requests,
    sleeps 60 seconds after each of them, never backs off, and returns the
    fallback of the exhausted retries. *)
Theorem rate_limit_storm text retries w :
  (forall req st, exists m st', create req st = (Raised (RateLimitError m), st')) ->
  exists st' tr,
    get_explanation_with text retries w
    = (Returned failed_after_retries,
       {| remote := st'; fs := fs w; events := events w ++ tr |})
    /\ actions tr
       = concat (repeat [Request (the_request text); Sleep RateLimitWait 60]
                        (Z.to_nat retries))
    /\ total_sleep tr = 60 * Z.of_nat (Z.to_nat retries).
Proof.
  intros Hlimited. unfold get_explanation_with.
  generalize (Z.to_nat retries) as n. generalize 1 as delay. intros delay n.
  revert w. induction n as [|n IH]; intros w.
  - exists (remote w), []. simpl. unfold ret. rewrite trace_app_nil. repeat split.
  - destruct (Hlimited (the_request text) (remote w)) as (m & st1 & Hc).
    rewrite (attempts_step _ _ _ _ _ _ (attempt_rate_limited _ delay _ _ _ Hc)).
    match goal with |- context [attempts text n delay ?w1] =>
      destruct (IH w1) as (st2 & tr2 & Hrun & Hact & Htot) end.
    simpl in Hrun. rewrite <- app_assoc in Hrun.
    eexists _, _. split; [exact Hrun|]. split.
    + rewrite actions_app, Hact. reflexivity.
    + rewrite total_sleep_app, Htot. simpl total_sleep. lia.
Qed.

(** A generic API error is backed off exactly like a connection error: with
    a service whose every call raises one or the other, in any mixture, the
    call sends 5 requests, sleeps 1, 2, 4, 8 and 16 seconds, one sleep after
    each request, and returns the fallback. *)
Theorem api_errors_back_off text w :
  (forall req st, exists m st',
      create req st = (Raised (APIConnectionError m), st')
      \/ create req st = (Raised (APIError m), st')) ->
  exists st' tr,
    get_explanation text w
    = (Returned failed_after_retries,
       {| remote := st'; fs := fs w; events := events w ++ tr |})
    /\ actions tr
       = [Request (the_request text); Sleep Backoff 1;
          Request (the_request text); Sleep Backoff 2;
          Request (the_request text); Sleep Backoff 4;
          Request (the_request text); Sleep Backoff 8;
          Request (the_request text); Sleep Backoff 16].
Proof.
  intros Hfail.
  assert (Hgen : forall n delay w0,
             exists st' tr,
               attempts text n delay w0
               = (Returned failed_after_retries,
                  {| remote := st'; fs := fs w0; events := events w0 ++ tr |})
               /\ actions tr
                  = flat_map (fun d => [Request (the_request text); Sleep Backoff d])
                             (backoff_delays delay n)).
  { induction n as [|n IH]; intros delay w0.
    - exists (remote w0), []. simpl. unfold ret. rewrite trace_app_nil.
      split; reflexivity.
    - destruct (Hfail (the_request text) (remote w0)) as (m & st1 & [Hc | Hc]).
      + rewrite (attempts_step _ _ _ _ _ _ (attempt_unreachable _ delay _ _ _ Hc)).
        match goal with |- context [attempts text n ?d ?w1] =>
          destruct (IH d w1) as (st2 & tr2 & Hb & Ha) end.
        simpl in Hb. rewrite <- app_assoc in Hb.
        eexists _, _. split; [exact Hb|]. rewrite actions_app, Ha. reflexivity.
      + rewrite (attempts_step _ _ _ _ _ _ (attempt_api_error _ delay _ _ _ Hc)).
        match goal with |- context [attempts text n ?d ?w1] =>
          destruct (IH d w1) as (st2 & tr2 & Hb & Ha) end.
        simpl in Hb. rewrite <- app_assoc in Hb.
        eexists _, _. split; [exact Hb|]. rewrite actions_app, Ha. reflexivity. }
  apply (Hgen 5%nat 1 w).
Qed.

(** With a budget of zero or less no request is sent at all: the call
    returns the fallback of the exhausted retries at once and leaves the
    world as it was. *)
Theorem no_budget_no_request text retries w :
  retries <= 0 ->
  get_explanation_with text retries w = (Returned failed_after_retries, w).
Proof.
  intros Hle. unfold get_explanation_with.
  replace (Z.to_nat retries) with 0%nat by lia. reflexivity.
Qed.

(** A response without any choice is not retried: the index error of
    [choices[0]] is caught by the last handler, and the call returns its
    description in the fallback after a single request and no sleep. *)
Theorem empty_choices_fallback text retries w r st' :
  0 < retries ->
  create (the_request text) (remote w) = (Returned r, st') ->
  choices r = [] ->
  get_explanation_with text retries w
  = (Returned (lit "Error processing slide: list index out of range"),
     {| remote := st'; fs := fs w;
        events := events w ++
          [Request (the_request text);
           Log ERROR (lit "Error processing slide: list index out of range")] |}).
Proof.
  intros Hpos Hc Hr. unfold get_explanation_with.
  destruct (Z.to_nat retries) as [|n] eqn:E; [lia|].
  rewrite (attempts_step _ _ _ _ _ _ (attempt_no_choice text 1 w r st' Hc Hr)).
  reflexivity.
Qed.

(** When the first call is answered, the call ends after that single
    request, without any sleep.  An answer of the client of the script
    never yields its content: its message is a [ChatCompletionMessage], the
    subscript raises a [TypeError], and the call returns the fallback made
    from that error, under an ERROR record.  From a message that is a
    mapping the call returns the content, trimmed (so that trimming it
    again changes nothing; later choices are ignored), and logs at most its
    first 60 characters; a mapping without the key gives the fallback of
    the [KeyError]. *)
Theorem first_answer_returned text retries w r st' :
  0 < retries ->
  create (the_request text) (remote w) = (Returned r, st') ->
  (forall ro co cs,
      choices r = {| message := ChatCompletionMessage ro co |} :: cs ->
      get_explanation_with text retries w
      = (Returned (lit "Error processing slide: "
                   ++ lit "'ChatCompletionMessage' object is not subscriptable"),
         {| remote := st'; fs := fs w;
            events := events w ++
              [Request (the_request text);
               Log ERROR
                 (lit "Error processing slide: "
                  ++ lit "'ChatCompletionMessage' object is not subscriptable")] |}))
  /\ (forall entries cs c,
        choices r = {| message := Mapping entries |} :: cs ->
        entries !! lit "content" = Some c ->
        get_explanation_with text retries w
        = (Returned (strip c),
           {| remote := st'; fs := fs w;
              events := events w ++
                [Request (the_request text);
                 Log INFO (lit "Received explanation: "
                           ++ firstn 60 (strip c) ++ lit "...")] |})
        /\ (length (firstn 60 (strip c)) <= 60)%nat
        /\ strip (strip c) = strip c)
  /\ (forall entries cs,
        choices r = {| message := Mapping entries |} :: cs ->
        entries !! lit "content" = None ->
        get_explanation_with text retries w
        = (Returned (lit "Error processing slide: " ++ lit "'content'"),
           {| remote := st'; fs := fs w;
              events := events w ++
                [Request (the_request text);
                 Log ERROR (lit "Error processing slide: " ++ lit "'content'")] |})).
Proof.
  intros Hpos Hc. unfold get_explanation_with.
  destruct (Z.to_nat retries) as [|n] eqn:E; [lia|].
  split; [|split].
  - intros ro co cs Hr.
    rewrite (attempts_step _ _ _ _ _ _
               (attempt_unreadable text 1 w r st' not_subscriptable Hc
                  ltac:(unfold read_content; rewrite Hr; reflexivity))).
    reflexivity.
  - intros entries cs c Hr Hk.
    rewrite (attempts_step _ _ _ _ _ _
               (attempt_answered text 1 w r st' c Hc
                  ltac:(unfold read_content; rewrite Hr; cbn [message subscript_content];
                        rewrite Hk; reflexivity))).
    split; [reflexivity|]. split; [apply firstn_le_length | apply strip_idem].
  - intros entries cs Hr Hk.
    rewrite (attempts_step _ _ _ _ _ _
               (attempt_unreadable text 1 w r st' (lit "'content'") Hc
                  ltac:(unfold read_content; rewrite Hr; cbn [message subscript_content];
                        rewrite Hk; reflexivity))).
    reflexivity.
Qed.

(** ** process_presentation, continued *)

Lemma total_sleep_split (tr : list event) :
  total_sleep tr
  = sum_Z (sleeps_at Backoff tr) + sum_Z (sleeps_at RateLimitWait tr)
    + sum_Z (sleeps_at Pacing tr).
Proof.
  induction tr as [|e tr IH]; simpl; [reflexivity|].
  destruct e as [lv msg|req|site secs|path data]; simpl; try exact IH.
  destruct site; simpl; unfold sum_Z in *; simpl; lia.
Qed.

Lemma sum_backoff_delays (k : nat) : forall delay,
  0 <= delay <= 60 ->
  0 <= sum_Z (backoff_delays delay k) <= 60 * Z.of_nat k.
Proof.
  induction k as [|k IH]; intros delay Hd; simpl; [lia|].
  specialize (IH (Z.min (delay * 2) 60) ltac:(lia)). unfold sum_Z in *. lia.
Qed.

Lemma sum_repeat (x : Z) (j : nat) : sum_Z (repeat x j) = x * Z.of_nat j.
Proof. induction j as [|j IH]; simpl; [lia|]. unfold sum_Z in *. simpl. lia. Qed.

(** One call of [get_explanation]: between 1 and 5 requests, all for the
    text at hand, and at most 300 seconds of sleep. *)
Lemma get_explanation_profile text w :
  exists s st' tr (m : nat),
    get_explanation text w
    = (Returned s, {| remote := st'; fs := fs w; events := events w ++ tr |})
    /\ requests tr = repeat (the_request text) m
    /\ (1 <= m <= 5)%nat
    /\ sleeps_at Pacing tr = []
    /\ 0 <= total_sleep tr <= 300.
Proof.
  destruct (get_explanation_with_shape text 5 w)
    as (s & st' & tr & k & j & m & Hrun & Hq & Hb & Hl & Hp & Hend).
  exists s, st', tr, m. split; [exact Hrun|]. split; [exact Hq|].
  change (Z.to_nat 5) with 5%nat in Hend.
  split; [destruct Hend as [(? & ? & _) | (? & ?)]; lia|].
  split; [exact Hp|].
  rewrite total_sleep_split, Hb, Hl, Hp, sum_repeat, <- backoff_delays_pow.
  pose proof (sum_backoff_delays k 1 ltac:(lia)) as Hs.
  change (sum_Z []) with 0.
  destruct Hend as [(? & ? & _) | (? & ?)]; lia.
Qed.

Lemma pacing_events_total (i : Z) :
  total_sleep (pacing_events i) = if (i + 1) mod 3 =? 0 then 60 else 20.
Proof. unfold pacing_events. destruct ((i + 1) mod 3 =? 0); reflexivity. Qed.

(** The loop over the texts: what it sends and how long it sleeps. *)
Lemma explain_from_profile total texts :
  Forall (fun t => truthy t = true) texts ->
  forall i acc w,
  exists es st' tr (ks : list nat),
    explain_from total i texts acc w
    = (Returned (acc ++ es),
       {| remote := st'; fs := fs w; events := events w ++ tr |})
    /\ length ks = length texts
    /\ Forall (fun k => (1 <= k <= 5)%nat) ks
    /\ requests tr
       = concat (zip_with (fun t k => repeat (the_request t) k) texts ks)
    /\ (length texts <= length (requests tr) <= 5 * length texts)%nat
    /\ sum_Z (pacing_from i (length texts)) <= total_sleep tr
       <= sum_Z (pacing_from i (length texts)) + 300 * Z.of_nat (length texts).
Proof.
  induction 1 as [|text rest Ht _ IH]; intros i acc w.
  - exists [], (remote w), [], []. simpl. unfold ret.
    rewrite trace_app_nil, app_nil_r. repeat split; auto; lia.
  - set (w0 := {| remote := remote w; fs := fs w;
                  events := events w ++ [submitting i total] |}).
    destruct (get_explanation_profile text w0)
      as (e & st1 & tr1 & m & Hg & Hq1 & Hm & Hp1 & Ht1).
    rewrite (explain_from_step total i text rest acc w e st1 _ Ht Hg).
    match goal with |- context [explain_from total (i + 1) rest ?a ?w1] =>
      destruct (IH (i + 1) a w1)
        as (es & st2 & tr2 & ks & Hb & Hlen & Hks & Hq2 & Hn2 & Ht2) end.
    destruct (pacing_events_read i) as (_ & _ & Hpq).
    exists (e :: es), st2, ([submitting i total] ++ tr1 ++ pacing_events i ++ tr2),
           (m :: ks).
    split.
    { rewrite Hb. simpl. rewrite <- !app_assoc. reflexivity. }
    split; [simpl; rewrite Hlen; reflexivity|].
    split; [constructor; assumption|].
    assert (Hreq : requests ([submitting i total] ++ tr1 ++ pacing_events i ++ tr2)
                   = repeat (the_request text) m ++ requests tr2).
    { rewrite !requests_app, Hq1, Hpq. reflexivity. }
    split; [rewrite Hreq, Hq2; reflexivity|].
    split.
    { rewrite Hreq, length_app, repeat_length. simpl. lia. }
    rewrite !total_sleep_app, pacing_events_total.
    change (total_sleep [submitting i total]) with 0.
    cbn [pacing_from length]. unfold sum_Z in *. cbn [fold_right].
    destruct ((i + 1) mod 3 =? 0); lia.
Qed.

Lemma sum_Z_app (l1 l2 : list Z) : sum_Z (l1 ++ l2) = sum_Z l1 + sum_Z l2.
Proof. induction l1 as [|x l1 IH]; simpl; [reflexivity|]. unfold sum_Z in *. simpl. lia. Qed.

(** The pacing sleeps of [n] slides add up to 20 seconds per slide and 40
    more for every third slide. *)
Lemma sum_pacing (n : nat) :
  sum_Z (pacing n) = 20 * Z.of_nat n + 40 * (Z.of_nat n / 3).
Proof.
  unfold pacing. induction n as [|n IH]; [reflexivity|].
  rewrite seq_S, map_app, sum_Z_app, IH. cbn [map plus]. unfold sum_Z at 1.
  cbn [fold_right]. rewrite Nat2Z.inj_succ.
  destruct (Z.succ (Z.of_nat n) mod 3 =? 0) eqn:E.
  - apply Z.eqb_eq in E.
    pose proof (Z.div_mod (Z.succ (Z.of_nat n)) 3 ltac:(lia)) as H1.
    pose proof (Z.div_mod (Z.of_nat n) 3 ltac:(lia)) as H2.
    pose proof (Z.mod_pos_bound (Z.of_nat n) 3 ltac:(lia)) as H3. lia.
  - apply Z.eqb_neq in E.
    pose proof (Z.div_mod (Z.succ (Z.of_nat n)) 3 ltac:(lia)) as H1.
    pose proof (Z.div_mod (Z.of_nat n) 3 ltac:(lia)) as H2.
    pose proof (Z.mod_pos_bound (Z.of_nat n) 3 ltac:(lia)) as H3.
    pose proof (Z.mod_pos_bound (Z.succ (Z.of_nat n)) 3 ltac:(lia)) as H4. lia.
Qed.

(** In a run over a loadable deck the requests go out in slide order:
    between 1 and 5 requests for the first extracted text, then between 1
    and 5 for the second, and so on.  Each of them is the same chat
    request, whose user message is the fixed instruction followed by the
    text of its slide; a deck with [n] non-empty slides costs between [n]
    and [5 n] requests. *)
Theorem requests_in_slide_order file_path ppt w :
  fs w !! file_path = Some (Pptx ppt) ->
  exists es w' tr (ks : list nat),
    process_presentation file_path w = (Returned es, w')
    /\ events w' = events w ++ tr
    /\ length ks = length (all_texts_of ppt)
    /\ Forall (fun k => (1 <= k <= 5)%nat) ks
    /\ requests tr
       = concat (zip_with
                   (fun t k =>
                      repeat {| model := lit "gpt-3.5-turbo";
                                messages :=
                                  [ {| role := lit "system";
                                       content := lit "You are a helpful assistant." |};
                                    {| role := lit "user";
                                       content :=
                                         lit "Explain the following presentation slide content succinctly:"
                                         ++ [0x0A; 0x0A]%N ++ t |} ];
                                max_tokens := 1500;
                                temperature := QArith_base.Qmake 1 2 |}
                             k)
                   (all_texts_of ppt) ks)
    /\ (length (all_texts_of ppt) <= length (requests tr)
        <= 5 * length (all_texts_of ppt))%nat.
Proof.
  intros Hfs. unfold process_presentation.
  unfold bind at 1. unfold logging at 1, emit. cbv beta iota.
  unfold bind at 1. unfold Presentation. cbn [fs]. rewrite Hfs.
  match goal with |- context [explain_from ?t 0 ?l [] ?w0] =>
    destruct (explain_from_profile t l (all_texts_truthy ppt) 0 [] w0)
      as (es & st' & tr & ks & Hb & Hlen & Hks & Hq & Hn & _) end.
  exists es. eexists.
  exists ([Log INFO (lit "Processing presentation: " ++ file_path)] ++ tr), ks.
  split; [rewrite Hb; reflexivity|].
  split; [cbn [events]; rewrite <- app_assoc; reflexivity|].
  split; [exact Hlen|]. split; [exact Hks|].
  rewrite requests_app. change (requests [Log INFO _]) with (@nil request).
  split; [exact Hq | exact Hn].
Qed.

(** A run over a loadable deck with [n] non-empty slides sleeps, all in
    all, at least [20 n + 40 (n / 3)] seconds, the pacing alone, and at most
    300 seconds per slide more, the retries. *)
Theorem run_duration file_path ppt w :
  fs w !! file_path = Some (Pptx ppt) ->
  exists es w' tr,
    process_presentation file_path w = (Returned es, w')
    /\ events w' = events w ++ tr
    /\ 20 * Z.of_nat (length (all_texts_of ppt))
       + 40 * (Z.of_nat (length (all_texts_of ppt)) / 3)
       <= total_sleep tr
       <= 320 * Z.of_nat (length (all_texts_of ppt))
          + 40 * (Z.of_nat (length (all_texts_of ppt)) / 3).
Proof.
  intros Hfs. unfold process_presentation.
  unfold bind at 1. unfold logging at 1, emit. cbv beta iota.
  unfold bind at 1. unfold Presentation. cbn [fs]. rewrite Hfs.
  match goal with |- context [explain_from ?t 0 ?l [] ?w0] =>
    destruct (explain_from_profile t l (all_texts_truthy ppt) 0 [] w0)
      as (es & st' & tr & ks & Hb & _ & _ & _ & _ & Ht) end.
  exists es. eexists.
  exists ([Log INFO (lit "Processing presentation: " ++ file_path)] ++ tr).
  split; [rewrite Hb; reflexivity|].
  split; [cbn [events]; rewrite <- app_assoc; reflexivity|].
  rewrite total_sleep_app. change (total_sleep [Log INFO _]) with 0.
  rewrite pacing_from_zero, sum_pacing in Ht. lia.
Qed.

(** ** The output path, continued *)

Lemma rfind_from_spec c (p : str) : forall (i : nat) last,
  (rfind_from c p i last = last /\ Forall (fun x => x <> c) p)
  \/ (exists a b, p = a ++ c :: b /\ Forall (fun x => x <> c) b
                  /\ rfind_from c p i last = Some (i + length a)%nat).
Proof.
  induction p as [|x p IH] using rev_ind; intros i last.
  - left. split; [reflexivity | constructor].
  - rewrite rfind_from_app. simpl. destruct (N.eqb_spec x c) as [->|Hne].
    + right. exists p, []. repeat split. constructor.
    + destruct (IH i last) as [[Hl Hall] | (a & b & -> & Hb & Hr)].
      * left. split; [exact Hl|]. apply Forall_app. split; [exact Hall|].
        repeat constructor. exact Hne.
      * right. exists a, (b ++ [x]). split; [rewrite <- app_assoc; reflexivity|].
        split; [|exact Hr]. apply Forall_app. split; [exact Hb|].
        repeat constructor. exact Hne.
Qed.

Lemma rfind_spec c (p : str) :
  match rfind c p with
  | None => Forall (fun x => x <> c) p
  | Some i => exists a b, p = a ++ c :: b /\ length a = i
                          /\ Forall (fun x => x <> c) b
  end.
Proof.
  unfold rfind. destruct (rfind_from_spec c p 0 None) as [[-> Hall] | (a & b & -> & Hb & ->)].
  - exact Hall.
  - exists a, b. repeat split. exact Hb.
Qed.

Lemma splitext_parts (file_path : str) :
  exists root ext,
    splitext file_path = (root, ext)
    /\ file_path = root ++ ext
    /\ (ext = []
        \/ exists e, ext = 0x2E%N :: e
                     /\ Forall (fun x => x <> 0x2E%N /\ x <> 0x2F%N) e)
    /\ output_path file_path = root ++ lit ".json".
Proof.
  unfold output_path, splitext.
  pose proof (rfind_spec 0x2E%N file_path) as Hdot.
  pose proof (rfind_spec 0x2F%N file_path) as Hsep.
  destruct (rfind 0x2E%N file_path) as [d|];
    [|exists file_path, []; rewrite app_nil_r; auto].
  match goal with |- context [(?f <=? d)%nat] => set (filenameIndex := f) in * end.
  destruct (filenameIndex <=? d)%nat eqn:Hle;
    [|exists file_path, []; rewrite app_nil_r; auto].
  match goal with |- context [forallb ?f ?l] => destruct (forallb f l) end;
    [exists file_path, []; rewrite app_nil_r; auto|].
  exists (firstn d file_path), (skipn d file_path).
  split; [reflexivity|]. split; [symmetry; apply firstn_skipn|].
  split; [|reflexivity]. right.
  destruct Hdot as (a & b & Hp & Hlen & Hb). exists b.
  split; [rewrite Hp, <- Hlen; apply drop_app_length|].
  apply Nat.leb_le in Hle.
  assert (Hslash : Forall (fun x => x <> 0x2F%N) b).
  { subst filenameIndex. destruct (rfind 0x2F%N file_path) as [i|].
    - destruct Hsep as (a' & b' & Hp' & Hlen' & Hb').
      assert (Hdrop : b = drop (d - i) b').
      { transitivity (drop (S d) file_path).
        - rewrite Hp, <- Hlen.
          change (a ++ 0x2E%N :: b) with (a ++ [0x2E%N] ++ b).
          rewrite app_assoc. symmetry. apply drop_app_length'.
          rewrite length_app. simpl. lia.
        - rewrite Hp'. change (a' ++ 0x2F%N :: b') with (a' ++ [0x2F%N] ++ b').
          rewrite app_assoc, drop_app_ge by (rewrite length_app; simpl; lia).
          f_equal. rewrite length_app. simpl. lia. }
      rewrite Hdrop. apply Forall_drop. exact Hb'.
    - rewrite Hp in Hsep. apply Forall_app in Hsep. destruct Hsep as [_ Hsep].
      inversion Hsep; assumption. }
  clear -Hb Hslash. induction Hb as [|x b Hx _ IH]; [constructor|].
  inversion Hslash; subst. constructor; [split; assumption | apply IH; assumption].
Qed.

(** For every path, [splitext] cuts the path in two: the extension is empty,
    or it starts at the last dot and holds neither another dot nor a slash.
    The output file is the path with that extension replaced by [.json]; it
    lies in the directory of the input. *)
Theorem output_path_replaces_extension (file_path : str) :
  exists root ext,
    splitext file_path = (root, ext)
    /\ file_path = root ++ ext
    /\ (ext = []
        \/ exists e, ext = 0x2E%N :: e
                     /\ Forall (fun x => x <> 0x2E%N /\ x <> 0x2F%N) e)
    /\ output_path file_path = root ++ lit ".json".
Proof. exact (splitext_parts file_path). Qed.

Lemma output_path_fixed_iff (file_path : str) :
  output_path file_path = file_path <-> snd (splitext file_path) = lit ".json".
Proof.
  destruct (splitext_parts file_path)
    as (root & ext & Hs & Hp & _ & Ho).
  rewrite Ho, Hs. cbn [snd]. split.
  - intros Heq. rewrite Hp in Heq. apply app_inv_head in Heq. congruence.
  - intros ->. congruence.
Qed.

Lemma main_changes_output_only file_path ppt w :
  fs w !! file_path = Some (Pptx ppt) ->
  exists es w',
    main file_path w = (Returned tt, w')
    /\ (forall p, p <> output_path file_path -> fs w' !! p = fs w !! p)
    /\ (snd (splitext file_path) <> lit ".json" ->
        fs w' !! file_path = Some (Pptx ppt))
    /\ (snd (splitext file_path) = lit ".json" ->
        output_path file_path = file_path
        /\ fs w' !! file_path = Some (Text (json_dumps es))).
Proof.
  intros Hfs.
  destruct (main_loaded file_path ppt w Hfs) as (es & st' & tr & Hmain & _).
  exists es. eexists. split; [exact Hmain|]. cbn [fs].
  split; [intros p Hp; apply lookup_insert_ne; congruence|]. split.
  - intros Hext. rewrite lookup_insert_ne; [exact Hfs|].
    intros Heq. apply Hext. apply output_path_fixed_iff. exact Heq.
  - intros Hext. apply output_path_fixed_iff in Hext. split; [exact Hext|].
    rewrite <- Hext at 1. apply lookup_insert_eq.
Qed.

(** A run on a loadable deck changes one file only, the output file.  The
    deck itself is still there afterwards, unless its path has the
    extension [.json]: then the output path is the path of the deck, and
    the run replaces the deck by its own output. *)
Theorem run_changes_output_only file_path ppt w :
  fs w !! file_path = Some (Pptx ppt) ->
  exists es w',
    main file_path w = (Returned tt, w')
    /\ (forall p, p <> output_path file_path -> fs w' !! p = fs w !! p)
    /\ (snd (splitext file_path) <> lit ".json" ->
        fs w' !! file_path = Some (Pptx ppt))
    /\ (snd (splitext file_path) = lit ".json" ->
        output_path file_path = file_path
        /\ fs w' !! file_path = Some (Text (json_dumps es))).
Proof. exact (main_changes_output_only file_path ppt w). Qed.

(** Hence a deck stored under a name that ends in [.json] survives one run
    only: the script run a second time on the same path finds no deck, and
    exits with status 1 having sent no request and written nothing. *)
Theorem json_named_deck_lost env argv key file_path ppt w :
  env !! OPENAI_API_KEY = Some key ->
  parse_args argv = ArgsOk file_path ->
  fs w !! file_path = Some (Pptx ppt) ->
  snd (splitext file_path) = lit ".json" ->
  exists w',
    script env argv w = (0, w')
    /\ script env argv w'
       = (1, {| remote := remote w'; fs := fs w';
                events := events w'
                          ++ [Log INFO (lit "Processing presentation: " ++ file_path)] |}).
Proof.
  intros He Ha Hfs Hext.
  destruct (main_changes_output_only file_path ppt w Hfs)
    as (es & w' & Hmain & _ & _ & Hlost).
  destruct (Hlost Hext) as [_ Htext].
  exists w'. split.
  - rewrite (script_with_key _ _ _ _ _ He Ha), Hmain. reflexivity.
  - apply (script_deck_missing env argv w' key file_path He Ha).
    intros ppt'. rewrite Htext. discriminate.
Qed.

(** With the key set and a file path parsed, a path at which no deck can
    be loaded ends the process with status 1 right after the first log
    record: no request is sent, nothing is written, the file store is as it
    was. *)
Theorem missing_deck_exit env argv w key file_path :
  env !! OPENAI_API_KEY = Some key ->
  parse_args argv = ArgsOk file_path ->
  (forall ppt, fs w !! file_path <> Some (Pptx ppt)) ->
  script env argv w
  = (1, {| remote := remote w; fs := fs w;
           events := events w
                     ++ [Log INFO (lit "Processing presentation: " ++ file_path)] |}).
Proof. exact (script_deck_missing env argv w key file_path). Qed.

End MoreProofs.

(** ** The dumped JSON, continued *)

Lemma escape_char_printable (c : N) :
  Forall (fun x => 0x20 <= x <= 0x7E) (escape_char c).
Proof.
  assert (Hu : forall n, Forall (fun x => 0x20 <= x <= 0x7E) (u_escape n)).
  { intros n. unfold u_escape, hex4. simpl.
    repeat constructor; try (apply hex_digit_printable; apply N.mod_lt; discriminate);
      discriminate. }
  unfold escape_char.
  repeat match goal with
         | |- context [if ?b then _ else _] => destruct b eqn:?
         end;
    try (repeat constructor; discriminate); try apply Hu.
  - match goal with E : (_ && _) = true |- _ =>
      apply andb_true_iff in E; destruct E as [E1 E2];
      apply N.leb_le in E1; apply N.leb_le in E2 end.
    repeat constructor; assumption.
  - apply Forall_app; split; apply Hu.
Qed.

(** The dumped text is plain ASCII whatever the explanations hold: printable
    characters and line feeds only, so that writing it cannot fail on the
    encoding of the output file. *)
Theorem json_dumps_ascii (l : list str) :
  Forall (fun x => x = 0x0A \/ 0x20 <= x <= 0x7E) (json_dumps l).
Proof.
  assert (Hlit : forall s : str,
             forallb (fun x => (x =? 0x0A) || ((0x20 <=? x) && (x <=? 0x7E))) s = true ->
             Forall (fun x => x = 0x0A \/ 0x20 <= x <= 0x7E) s).
  { intros s Hs. apply List.Forall_forall. intros x Hx.
    rewrite forallb_forall in Hs. specialize (Hs x Hx).
    apply orb_true_iff in Hs. destruct Hs as [Hs | Hs].
    - left. apply N.eqb_eq. exact Hs.
    - right. apply andb_true_iff in Hs. destruct Hs as [H1 H2].
      apply N.leb_le in H1. apply N.leb_le in H2. split; assumption. }
  assert (Henc : forall s, Forall (fun x => x = 0x0A \/ 0x20 <= x <= 0x7E) (encode_str s)).
  { intros s. unfold encode_str.
    apply Forall_app. split; [apply Hlit; reflexivity|].
    apply Forall_app. split; [|apply Hlit; reflexivity].
    induction s as [|c s IH]; cbn [flat_map]; [constructor|].
    apply Forall_app. split; [|exact IH].
    eapply Forall_impl; [apply escape_char_printable|]. intros x Hx. right. exact Hx. }
  destruct l as [|x xs]; unfold json_dumps.
  - apply Hlit. reflexivity.
  - apply Forall_app. split; [apply Hlit; reflexivity|].
    apply Forall_app. split; [apply Hlit; reflexivity|].
    apply Forall_app. split; [apply Henc|].
    apply Forall_app. split; [|apply Hlit; reflexivity].
    induction xs as [|y ys IH]; cbn [flat_map]; [constructor|].
    apply Forall_app. split; [|exact IH].
    apply Forall_app. split; [apply Hlit; reflexivity|].
    apply Forall_app. split; [apply Hlit; reflexivity | apply Henc].
Qed.

Lemma unhex_digit_hex_digit (d : N) : d < 16 -> unhex_digit (hex_digit d) = Some d.
Proof.
  intros Hd. unfold hex_digit, unhex_digit. destruct (d <? 10) eqn:E.
  - apply N.ltb_lt in E.
    replace ((0x30 <=? 0x30 + d) && (0x30 + d <=? 0x39)) with true
      by (symmetry; apply andb_true_iff; split; apply N.leb_le; lia).
    f_equal. lia.
  - apply N.ltb_ge in E.
    replace ((0x30 <=? 0x57 + d) && (0x57 + d <=? 0x39)) with false
      by (symmetry; apply andb_false_iff; right; apply N.leb_gt; lia).
    replace ((0x61 <=? 0x57 + d) && (0x57 + d <=? 0x66)) with true
      by (symmetry; apply andb_true_iff; split; apply N.leb_le; lia).
    f_equal. lia.
Qed.

Lemma unhex4_hex4 (n : N) :
  n < 0x10000 ->
  unhex4 (hex_digit (n / 0x1000 mod 16)) (hex_digit (n / 0x100 mod 16))
         (hex_digit (n / 0x10 mod 16)) (hex_digit (n mod 16))
  = Some n.
Proof.
  intros Hn. unfold unhex4.
  rewrite !unhex_digit_hex_digit by (apply N.mod_lt; discriminate).
  f_equal.
  pose proof (N.div_mod n 16 ltac:(discriminate)) as H0.
  pose proof (N.div_mod (n / 16) 16 ltac:(discriminate)) as H1.
  pose proof (N.div_mod (n / 16 / 16) 16 ltac:(discriminate)) as H2.
  rewrite N.Div0.div_div in H1, H2. rewrite N.Div0.div_div in H2.
  change (16 * 16) with 0x100 in *. change (0x100 * 16) with 0x1000 in *.
  change 0x10 with 16.
  assert (Hq : n / 0x1000 < 16).
  { apply N.Div0.div_lt_upper_bound. exact Hn. }
  rewrite (N.mod_small (n / 0x1000) 16 Hq) in *.
  lia.
Qed.

Lemma lor_surrogate (y : N) :
  y < 0x400 -> N.lor 0xD800 y = 0xD800 + y /\ N.lor 0xDC00 y = 0xDC00 + y.
Proof.
  intros Hy.
  assert (Hall : forallb (fun y => (N.lor 0xD800 y =? 0xD800 + y)
                                   && (N.lor 0xDC00 y =? 0xDC00 + y))
                         (map N.of_nat (seq 0 1024)) = true)
    by (vm_compute; reflexivity).
  rewrite forallb_forall in Hall.
  specialize (Hall y). 
  assert (Hin : In y (map N.of_nat (seq 0 1024))).
  { apply List.in_map_iff. exists (N.to_nat y). split; [apply N2Nat.id|].
    apply in_seq. lia. }
  apply Hall in Hin. apply andb_true_iff in Hin. destruct Hin as [H1 H2].
  apply N.eqb_eq in H1. apply N.eqb_eq in H2. split; assumption.
Qed.

(** The two halves of the surrogate pair written for a code point above
    the basic plane. *)
Lemma surrogate_pair (c : N) :
  0x10000 <= c -> c < 0x110000 ->
  let n := c - 0x10000 in
  let hi := N.lor 0xD800 (N.land (N.shiftr n 10) 0x3FF) in
  let lo := N.lor 0xDC00 (N.land n 0x3FF) in
  0xD800 <= hi /\ hi <= 0xDBFF /\ 0xDC00 <= lo /\ lo <= 0xDFFF
  /\ 0x10000 + (hi - 0xD800) * 0x400 + (lo - 0xDC00) = c.
Proof.
  intros Hlo Hhi n hi lo. subst hi lo.
  change 0x3FF with (N.ones 10). rewrite !N.land_ones, N.shiftr_div_pow2.
  change (2 ^ 10) with 0x400.
  assert (Hn : n < 0x100000) by (subst n; lia).
  assert (Hq : n / 0x400 < 0x400) by (apply N.Div0.div_lt_upper_bound; exact Hn).
  rewrite (N.mod_small _ _ Hq).
  assert (Hr : n mod 0x400 < 0x400) by (apply N.mod_lt; discriminate).
  destruct (lor_surrogate _ Hq) as [-> _].
  destruct (lor_surrogate _ Hr) as [_ ->].
  pose proof (N.div_mod n 0x400 ltac:(discriminate)) as Hdm.
  assert (Hc : c = n + 0x10000) by (subst n; lia). clearbody n.
  set (q := n / 0x400) in *. set (r := n mod 0x400) in *. clearbody q r.
  lia.
Qed.

Lemma unescape_plain c t :
  (c =? 0x5C) = false -> (c =? 0x22) = false -> (c <? 0x20) = false ->
  unescape (c :: t) = option_map (cons c) (unescape t).
Proof.
  intros Hc Hq Hl. simpl. rewrite Hc, Hq, Hl. destruct (unescape t); reflexivity.
Qed.

Lemma unescape_two x t v :
  (x =? 0x75) = false -> unescape_short x = Some v ->
  unescape (0x5C :: x :: t) = option_map (cons v) (unescape t).
Proof. intros Hx Hv. simpl. rewrite Hx, Hv. destruct (unescape t); reflexivity. Qed.

Lemma unescape_u4 a b c d t v :
  unhex4 a b c d = Some v ->
  (0xD800 <=? v) && (v <=? 0xDBFF) = false ->
  unescape (0x5C :: 0x75 :: a :: b :: c :: d :: t) = option_map (cons v) (unescape t).
Proof. intros Hv Hs. simpl. rewrite Hv, Hs. destruct (unescape t); reflexivity. Qed.

Lemma unescape_pair a b c d e f g h t hi lo :
  unhex4 a b c d = Some hi ->
  (0xD800 <=? hi) && (hi <=? 0xDBFF) = true ->
  unhex4 e f g h = Some lo ->
  unescape (0x5C :: 0x75 :: a :: b :: c :: d :: 0x5C :: 0x75 :: e :: f :: g :: h :: t)
  = option_map (cons (0x10000 + (hi - 0xD800) * 0x400 + (lo - 0xDC00))) (unescape t).
Proof.
  intros Hhi Hs Hlo. simpl. rewrite Hhi, Hs, Hlo. destruct (unescape t); reflexivity.
Qed.

(** Reading back what was written for one scalar value gives the value. *)
Lemma unescape_escape_char (c : N) (t : str) :
  scalar c -> unescape (escape_char c ++ t) = option_map (cons c) (unescape t).
Proof.
  intros Hc. unfold escape_char.
  destruct (N.eqb_spec c 0x22) as [->|H1]; [reflexivity|].
  destruct (N.eqb_spec c 0x5C) as [->|H2]; [reflexivity|].
  destruct (N.eqb_spec c 0x08) as [->|H3]; [reflexivity|].
  destruct (N.eqb_spec c 0x0C) as [->|H4]; [reflexivity|].
  destruct (N.eqb_spec c 0x0A) as [->|H5]; [reflexivity|].
  destruct (N.eqb_spec c 0x0D) as [->|H6]; [reflexivity|].
  destruct (N.eqb_spec c 0x09) as [->|H7]; [reflexivity|].
  destruct ((0x20 <=? c) && (c <=? 0x7E)) eqn:Hp.
  - apply andb_true_iff in Hp. destruct Hp as [Hp1 Hp2]. apply N.leb_le in Hp1.
    apply unescape_plain; [apply N.eqb_neq; exact H2 | apply N.eqb_neq; exact H1|].
    apply N.ltb_ge. exact Hp1.
  - destruct (N.ltb_spec c 0x10000) as [Hb|Hb].
    + unfold u_escape, hex4. cbn [app].
      apply unescape_u4; [apply unhex4_hex4; exact Hb|].
      destruct Hc as [Hc | [Hc _]].
      * apply andb_false_iff. left. apply N.leb_gt. exact Hc.
      * apply andb_false_iff. right. apply N.leb_gt. lia.
    + assert (Hlt : c < 0x110000) by (destruct Hc as [Hc | [_ Hc]]; lia).
      destruct (surrogate_pair c Hb Hlt) as (Hh1 & Hh2 & Hl1 & Hl2 & Hcomb).
      cbv zeta in *.
      set (hi := N.lor 0xD800 (N.land (N.shiftr (c - 0x10000) 10) 0x3FF)) in *.
      set (lo := N.lor 0xDC00 (N.land (c - 0x10000) 0x3FF)) in *.
      clearbody hi lo.
      transitivity (option_map (cons (0x10000 + (hi - 0xD800) * 0x400 + (lo - 0xDC00)))
                               (unescape t)); [|rewrite Hcomb; reflexivity].
      unfold u_escape, hex4. cbn [app].
      apply unescape_pair.
      * apply unhex4_hex4. lia.
      * apply andb_true_iff. split; apply N.leb_le; assumption.
      * apply unhex4_hex4. lia.
Qed.

Lemma unescape_flat_map (s : str) :
  Forall scalar s -> unescape (flat_map escape_char s) = Some s.
Proof.
  induction 1 as [|c s Hc _ IH]; [reflexivity|].
  cbn [flat_map]. rewrite (unescape_escape_char c _ Hc), IH. reflexivity.
Qed.

Lemma encode_str_inj (s1 s2 : str) :
  Forall scalar s1 -> Forall scalar s2 -> encode_str s1 = encode_str s2 -> s1 = s2.
Proof.
  intros H1 H2 Heq. unfold encode_str in Heq.
  apply app_inv_head in Heq. apply app_inv_tail in Heq.
  apply (f_equal unescape) in Heq.
  rewrite !unescape_flat_map in Heq by assumption. congruence.
Qed.

Lemma item_lines_inj (l1 : list str) : forall l2,
  Forall (Forall scalar) l1 -> Forall (Forall scalar) l2 ->
  item_lines l1 = item_lines l2 -> l1 = l2.
Proof.
  induction l1 as [|x xs IH]; intros l2 H1 H2 Heq.
  - destruct l2 as [|y ys]; [reflexivity|].
    apply (f_equal (@length str)) in Heq. rewrite !item_lines_length in Heq.
    discriminate.
  - destruct l2 as [|y ys].
    { apply (f_equal (@length str)) in Heq. rewrite !item_lines_length in Heq.
      discriminate. }
    inversion H1 as [|? ? Hx Hxs]; subst. inversion H2 as [|? ? Hy Hys]; subst.
    destruct xs as [|x' xs]; destruct ys as [|y' ys].
    + cbn [item_lines] in Heq.
      pose proof (f_equal (hd []) Heq) as Hline. cbn [hd] in Hline.
      apply app_inv_head in Hline. f_equal. apply encode_str_inj; assumption.
    + apply (f_equal (@length str)) in Heq. rewrite !item_lines_length in Heq.
      discriminate.
    + apply (f_equal (@length str)) in Heq. rewrite !item_lines_length in Heq.
      discriminate.
    + change (item_lines (x :: x' :: xs))
        with ((lit "    " ++ encode_str x ++ lit ",") :: item_lines (x' :: xs)) in Heq.
      change (item_lines (y :: y' :: ys))
        with ((lit "    " ++ encode_str y ++ lit ",") :: item_lines (y' :: ys)) in Heq.
      pose proof (f_equal (hd []) Heq) as Hline. cbn [hd] in Hline.
      pose proof (f_equal (@tl str) Heq) as Hrest. cbn [tl] in Hrest.
      apply app_inv_head in Hline. apply app_inv_tail in Hline.
      f_equal; [apply encode_str_inj; assumption|].
      apply IH; assumption.
Qed.

(** The dump loses nothing: two lists of explanations made of Unicode scalar
    values that are dumped to the same text are the same list. *)
Theorem json_dumps_injective (l1 l2 : list str) :
  Forall (Forall scalar) l1 -> Forall (Forall scalar) l2 ->
  json_dumps l1 = json_dumps l2 -> l1 = l2.
Proof.
  intros H1 H2 Heq. apply (f_equal split_lines) in Heq.
  rewrite !split_lines_json_dumps in Heq.
  destruct l1 as [|x xs]; destruct l2 as [|y ys]; [reflexivity | | |].
  - apply (f_equal (@length str)) in Heq. unfold json_lines in Heq.
    rewrite !length_app, item_lines_length in Heq. simpl in Heq. lia.
  - apply (f_equal (@length str)) in Heq. unfold json_lines in Heq.
    rewrite !length_app, item_lines_length in Heq. simpl in Heq. lia.
  - unfold json_lines in Heq. apply app_inv_head in Heq. apply app_inv_tail in Heq.
    apply item_lines_inj; assumption.
Qed.

(** The restriction to scalar values is needed: a code point above the
    basic plane and the two lone surrogates of its pair are dumped alike. *)
Example surrogates_dumped_alike :
  json_dumps [[0x1F600]] = json_dumps [[0xD83D; 0xDE00]].
Proof. reflexivity. Qed.

Lemma json_dumps_injective_witness :
  [lit "A title slide."; [0xE9; 0x0A; 0x1F600]] = [lit "A title slide."; [233; 10; 128512]].
Proof.
  apply (json_dumps_injective [lit "A title slide."; [0xE9; 0x0A; 0x1F600]]
           [lit "A title slide."; [233; 10; 128512]]).
  - repeat constructor; unfold scalar; lia.
  - repeat constructor; unfold scalar; lia.
  - reflexivity.
Defined.

(** ** Reading the dump back *)

Lemma read_item_written (last : bool) (e : str) :
  Forall scalar e ->
  read_item last (lit "    " ++ encode_str e ++ (if last then [] else lit ","))
  = Some e.
Proof.
  intros He.
  set (body := flat_map escape_char e).
  set (closing := if last then [0x22] else [0x22; 0x2C]).
  assert (Hline : lit "    " ++ encode_str e ++ (if last then [] else lit ",")
                  = (lit "    " ++ [0x22]) ++ body ++ closing).
  { unfold encode_str, closing, body. destruct last; rewrite <- !app_assoc; reflexivity. }
  rewrite Hline. unfold read_item. cbv zeta. fold closing.
  rewrite (take_app_length' (lit "    " ++ [0x22])) by reflexivity.
  rewrite (drop_app_length' (lit "    " ++ [0x22])) by reflexivity.
  rewrite length_app, Nat.add_sub, drop_app_length, take_app_length.
  rewrite !bool_decide_eq_true_2 by reflexivity.
  apply unescape_flat_map. exact He.
Qed.

Lemma read_items_written (l : list str) :
  Forall (Forall scalar) l -> read_items (item_lines l) = Some l.
Proof.
  induction 1 as [|x xs Hx Hxs IH]; [reflexivity|].
  destruct xs as [|y ys].
  - cbn [item_lines read_items].
    rewrite <- (app_nil_r (encode_str x)).
    rewrite (read_item_written true x Hx). reflexivity.
  - change (item_lines (x :: y :: ys))
      with ((lit "    " ++ encode_str x ++ lit ",") :: item_lines (y :: ys)).
    destruct (item_lines (y :: ys)) as [|l1 ls] eqn:E.
    { apply (f_equal (@length str)) in E. rewrite item_lines_length in E. discriminate. }
    cbn [read_items]. cbn [read_items] in IH.
    rewrite (read_item_written false x Hx), IH. reflexivity.
Qed.

(** What is written reads back as the list that was dumped. *)
Lemma json_loads_dumps (l : list str) :
  Forall (Forall scalar) l -> json_loads (json_dumps l) = Some l.
Proof.
  intros Hl. unfold json_loads. rewrite split_lines_json_dumps.
  destruct l as [|x xs]; [reflexivity|].
  unfold json_lines. cbn [app].
  replace (bool_decide (lit "[" = lit "[]")) with false by reflexivity.
  rewrite (bool_decide_eq_true_2 (lit "[" = lit "[")) by reflexivity.
  cbn [andb]. rewrite rev_app_distr. cbn [rev app].
  rewrite bool_decide_eq_true_2 by reflexivity.
  rewrite rev_involutive. apply read_items_written. exact Hl.
Qed.

(** Ordinary text is written between quotes as it is. *)
Lemma encode_str_plain (e : str) :
  Forall (fun c => 0x20 <= c <= 0x7E /\ c <> 0x22 /\ c <> 0x5C) e ->
  encode_str e = [0x22] ++ e ++ [0x22].
Proof.
  intros He. unfold encode_str. f_equal. f_equal.
  induction He as [|c e (Hr & Hq & Hb) _ IH]; [reflexivity|].
  cbn [flat_map]. rewrite IH. unfold escape_char.
  apply N.eqb_neq in Hq. apply N.eqb_neq in Hb. rewrite Hq, Hb.
  replace (c =? 0x08) with false by (symmetry; apply N.eqb_neq; lia).
  replace (c =? 0x0C) with false by (symmetry; apply N.eqb_neq; lia).
  replace (c =? 0x0A) with false by (symmetry; apply N.eqb_neq; lia).
  replace (c =? 0x0D) with false by (symmetry; apply N.eqb_neq; lia).
  replace (c =? 0x09) with false by (symmetry; apply N.eqb_neq; lia).
  replace ((0x20 <=? c) && (c <=? 0x7E)) with true
    by (symmetry; apply andb_true_iff; split; apply N.leb_le; lia).
  reflexivity.
Qed.



(** ** The output file *)

Section OutputProofs.
Context `{Collaborators}.

(** C8.  [save_explanations] writes once, to the input path with its
    extension replaced by [.json], whatever was stored there before; the
    data is the JSON array of the explanations: it reads back as the list
    of explanations, one per line in slide order, indented by four spaces,
    ordinary text standing between quotes as it is.  A run on a loadable
    deck writes exactly once, at the end, changes no other file, and a
    second run on the same path writes the same file again. *)
Theorem output_written_once file_path :
  (forall explanations w,
      exists w',
        save_explanations file_path explanations w = (Returned tt, w')
        /\ fs w' !! output_path file_path = Some (Text (json_dumps explanations))
        /\ (forall p, p <> output_path file_path -> fs w' !! p = fs w !! p)
        /\ exists tr, events w' = events w ++ tr
                      /\ writes tr = [(output_path file_path, json_dumps explanations)])
  /\ output_path file_path = fst (splitext file_path) ++ lit ".json"
  /\ (forall dir name ext,
        file_path = dir ++ name ++ [0x2E]%N ++ ext ->
        (dir = [] \/ exists d, dir = d ++ [0x2F]%N) ->
        Forall (fun x => x <> 0x2F%N) name ->
        Exists (fun x => x <> 0x2E%N) name ->
        Forall (fun x => x <> 0x2E%N /\ x <> 0x2F%N) ext ->
        output_path file_path = dir ++ name ++ lit ".json")
  /\ (forall explanations : list str,
        split_lines (json_dumps explanations) = json_lines explanations
        /\ length (json_lines explanations)
           = (if (length explanations =? 0)%nat then 1 else length explanations + 2)%nat
        /\ (forall (i : nat) (e : str),
              explanations !! i = Some e ->
              json_lines explanations !! S i
              = Some (lit "    " ++ encode_str e
                      ++ (if (S i =? length explanations)%nat then [] else lit ",")))
        /\ (Forall (Forall scalar) explanations ->
            json_loads (json_dumps explanations) = Some explanations)
        /\ (forall e, Forall scalar e ->
                      exists body, encode_str e = [0x22]%N ++ body ++ [0x22]%N
                                   /\ unescape body = Some e)
        /\ (forall e,
              Forall (fun c => (0x20 <= c <= 0x7E)%N /\ c <> 0x22%N /\ c <> 0x5C%N) e ->
              encode_str e = [0x22]%N ++ e ++ [0x22]%N))
  /\ (forall ppt w,
        fs w !! file_path = Some (Pptx ppt) ->
        exists es w' tr,
          main file_path w = (Returned tt, w')
          /\ events w' = events w ++ tr
          /\ writes tr = [(output_path file_path, json_dumps es)]
          /\ fs w' !! output_path file_path = Some (Text (json_dumps es))
          /\ (forall p, p <> output_path file_path -> fs w' !! p = fs w !! p)
          /\ (exists w1, process_presentation file_path w = (Returned es, w1))
          /\ forall ppt',
               fs w' !! file_path = Some (Pptx ppt') ->
               exists es2 w'' tr2,
                 main file_path w' = (Returned tt, w'')
                 /\ events w'' = events w' ++ tr2
                 /\ writes tr2 = [(output_path file_path, json_dumps es2)]
                 /\ map fst (writes tr2) = map fst (writes tr)
                 /\ fs w'' !! output_path file_path = Some (Text (json_dumps es2))
                 /\ (forall p, p <> output_path file_path ->
                               fs w'' !! p = fs w !! p)).
Proof.
  assert (Hrun : forall ppt w,
             fs w !! file_path = Some (Pptx ppt) ->
             exists es w' tr,
               main file_path w = (Returned tt, w')
               /\ events w' = events w ++ tr
               /\ writes tr = [(output_path file_path, json_dumps es)]
               /\ fs w' !! output_path file_path = Some (Text (json_dumps es))
               /\ (forall p, p <> output_path file_path -> fs w' !! p = fs w !! p)
               /\ (exists w1, process_presentation file_path w = (Returned es, w1))).
  { intros ppt w Hfs.
    destruct (main_loaded file_path ppt w Hfs)
      as (es & st' & tr & Hmain & Hproc & _ & Hw & _).
    exists es. eexists. eexists. split; [exact Hmain|]. split; [reflexivity|].
    split; [|split; [|split]].
    - rewrite writes_app. simpl. rewrite writes_app, Hw. reflexivity.
    - cbn [fs]. apply lookup_insert_eq.
    - intros p Hp. cbn [fs]. apply lookup_insert_ne. congruence.
    - eexists. exact Hproc. }
  split; [|split; [|split; [|split]]].
  - intros explanations w. eexists. split; [apply save_explanations_run|].
    cbn [fs events]. split; [apply lookup_insert_eq|].
    split; [intros p Hp; apply lookup_insert_ne; congruence|].
    eexists. split; reflexivity.
  - reflexivity.
  - intros dir name ext -> Hdir Hname Hdot Hext.
    apply output_path_name_ext; assumption.
  - intros explanations. split; [apply split_lines_json_dumps|]. split.
    { destruct explanations as [|x xs]; [reflexivity|].
      unfold json_lines. rewrite !length_app, item_lines_length. simpl. lia. }
    split; [intros i e; apply json_lines_lookup|].
    split; [apply json_loads_dumps|].
    split; [|apply encode_str_plain].
    intros e He. exists (flat_map escape_char e).
    split; [reflexivity | apply unescape_flat_map; exact He].
  - intros ppt w Hfs.
    destruct (Hrun ppt w Hfs)
      as (es & w' & tr & Hmain & Hev & Hw & Hout & Hframe & Hproc).
    exists es, w', tr. repeat (split; [assumption|]).
    intros ppt' Hfs'.
    destruct (Hrun ppt' w' Hfs')
      as (es2 & w'' & tr2 & Hmain2 & Hev2 & Hw2 & Hout2 & Hframe2 & _).
    exists es2, w'', tr2. repeat (split; [assumption|]).
    split; [rewrite Hw, Hw2; reflexivity|]. split; [assumption|].
    intros p Hp. rewrite (Hframe2 p Hp). apply Hframe. exact Hp.
Qed.

End OutputProofs.

Lemma output_written_once_witness :
  output_path deck_path = lit "talks/deck.json"
  /\ exists es w' tr es2 w'' tr2,
       @main echoing deck_path (@world_with echoing tt deck4) = (Returned tt, w')
       /\ events w' = events (@world_with echoing tt deck4) ++ tr
       /\ writes tr = [(lit "talks/deck.json", sample_dump)]
       /\ fs w' !! lit "talks/deck.json" = Some (Text sample_dump)
       /\ json_loads sample_dump = Some es
       /\ es = map (fun t => lit "Explain the following presentation slide content succinctly:"
                             ++ [0x0A; 0x0A] ++ t)
                   [lit "Intro"; lit "Goals Scope"; lit "Plan"; lit "Thanks"]
       /\ fs w' !! deck_path = Some (Pptx deck4)
       /\ @main echoing deck_path w' = (Returned tt, w'')
       /\ events w'' = events w' ++ tr2
       /\ writes tr2 = [(lit "talks/deck.json", json_dumps es2)]
       /\ fs w'' !! lit "talks/deck.json" = Some (Text (json_dumps es2))
       /\ fs w'' !! deck_path = Some (Pptx deck4).
Proof.
  destruct (@output_written_once echoing deck_path)
    as (_ & _ & Hname & Hdump & Hrun).
  assert (Hout : output_path deck_path = lit "talks/deck.json").
  { apply (Hname (lit "talks/") (lit "deck") (lit "pptx")).
    - reflexivity.
    - right. exists (lit "talks"). reflexivity.
    - repeat constructor; discriminate.
    - constructor. discriminate.
    - repeat constructor; discriminate. }
  split; [exact Hout|].
  destruct (Hrun deck4 (@world_with echoing tt deck4))
    as (es & w' & tr & Hmain & Hev & Hw & Hfile & Hframe & (w1 & Hproc) & Hagain);
    [vm_compute; reflexivity|].
  assert (Hes : es = map (fun t => lit "Explain the following presentation slide content succinctly:"
                                   ++ [0x0A; 0x0A] ++ t)
                         [lit "Intro"; lit "Goals Scope"; lit "Plan"; lit "Thanks"]).
  { vm_compute in Hproc. inversion Hproc. reflexivity. }
  assert (Hdata : json_dumps es = sample_dump) by (rewrite Hes; vm_compute; reflexivity).
  assert (Hne : deck_path <> output_path deck_path)
    by (rewrite Hout; vm_compute; discriminate).
  assert (Hdeck : fs w' !! deck_path = Some (Pptx deck4))
    by (rewrite (Hframe _ Hne); vm_compute; reflexivity).
  destruct (Hagain deck4 Hdeck)
    as (es2 & w'' & tr2 & Hmain2 & Hev2 & Hw2 & _ & Hfile2 & Hframe2).
  destruct (Hdump es) as (_ & _ & _ & Hloads & _).
  exists es, w', tr, es2, w'', tr2.
  rewrite Hout, Hdata in *.
  split; [exact Hmain|]. split; [exact Hev|]. split; [exact Hw|].
  split; [exact Hfile|].
  split; [apply Hloads; rewrite Hes; repeat constructor; unfold scalar; lia|].
  split; [exact Hes|]. split; [exact Hdeck|]. split; [exact Hmain2|].
  split; [exact Hev2|]. split; [exact Hw2|]. split; [exact Hfile2|].
  rewrite (Hframe2 _ Hne). vm_compute. reflexivity.
Defined.

(** ** The test *)

Section TestProofs.
Context `{Collaborators}.

(** With the key in the environment, the demo deck in place and its path
    accepted by argparse, the assertion of [test_script] holds after the
    run. *)
Theorem test_script_passes here env key ppt w :
  env !! OPENAI_API_KEY = Some key ->
  parse_args [path_join here (lit "presentation.pptx")]
  = ArgsOk (path_join here (lit "presentation.pptx")) ->
  fs w !! path_join here (lit "presentation.pptx") = Some (Pptx ppt) ->
  fst (test_script here env w) = true.
Proof.
  intros He Ha Hfs. unfold test_script.
  rewrite (script_with_key _ _ _ _ _ He Ha).
  destruct (main_loaded _ ppt w Hfs) as (es & st' & tr & Hmain & _).
  rewrite Hmain. cbn [fst fs]. apply bool_decide_eq_true.
  exists (Text (json_dumps es)). apply lookup_insert_eq.
Qed.

(** The test does not look at the exit status of the script.  When the
    script fails, for want of the key or of the deck, it exits with status
    1 and the verdict of the test is whether the output file was there
    before: an output left by an earlier run makes the test pass. *)
Theorem test_script_blind_to_failure here env w :
  (env !! OPENAI_API_KEY = None
   \/ exists key,
        env !! OPENAI_API_KEY = Some key
        /\ parse_args [path_join here (lit "presentation.pptx")]
           = ArgsOk (path_join here (lit "presentation.pptx"))
        /\ forall ppt,
             fs w !! path_join here (lit "presentation.pptx") <> Some (Pptx ppt)) ->
  fst (script env [path_join here (lit "presentation.pptx")] w) = 1%Z
  /\ fst (test_script here env w)
     = bool_decide
         (is_Some (fs w !! output_path (path_join here (lit "presentation.pptx")))).
Proof.
  intros [He | (key & He & Ha & Hfs)]; unfold test_script.
  - rewrite (script_without_key _ _ _ He). split; reflexivity.
  - rewrite (script_deck_missing _ _ _ _ _ He Ha Hfs). split; reflexivity.
Qed.

End TestProofs.

(** ** The further properties on sample inputs *)

Lemma rate_limit_storm_witness :
  exists st' tr,
    @get_explanation_with rate_limited (lit "Intro") 5
      (@world_with rate_limited tt deck4)
    = (Returned failed_after_retries,
       @Build_world rate_limited st' (fs (@world_with rate_limited tt deck4))
         (events (@world_with rate_limited tt deck4) ++ tr))
    /\ actions tr
       = concat (repeat [Request (the_request (lit "Intro")); Sleep RateLimitWait 60] 5)
    /\ total_sleep tr = 300%Z.
Proof.
  apply (@rate_limit_storm rate_limited (lit "Intro") 5
           (@world_with rate_limited tt deck4)).
  intros req st. eexists _, _. reflexivity.
Defined.

Lemma api_errors_back_off_witness :
  exists st' tr,
    @get_explanation failing (lit "Intro") (@world_with failing 0%nat deck4)
    = (Returned failed_after_retries,
       @Build_world failing st' (fs (@world_with failing 0%nat deck4))
         (events (@world_with failing 0%nat deck4) ++ tr))
    /\ actions tr
       = [Request (the_request (lit "Intro")); Sleep Backoff 1;
          Request (the_request (lit "Intro")); Sleep Backoff 2;
          Request (the_request (lit "Intro")); Sleep Backoff 4;
          Request (the_request (lit "Intro")); Sleep Backoff 8;
          Request (the_request (lit "Intro")); Sleep Backoff 16].
Proof.
  apply (@api_errors_back_off failing (lit "Intro") (@world_with failing 0%nat deck4)).
  intros req st. simpl. destruct (Nat.even st).
  - eexists _, _. left. reflexivity.
  - eexists _, _. right. reflexivity.
Defined.

Lemma no_budget_no_request_witness :
  @get_explanation_with answering (lit "Intro") 0 (@world_with answering tt deck4)
  = (Returned failed_after_retries, @world_with answering tt deck4).
Proof.
  apply (@no_budget_no_request answering (lit "Intro") 0
           (@world_with answering tt deck4)).
  reflexivity.
Defined.

Lemma empty_choices_fallback_witness :
  @get_explanation_with choiceless (lit "Intro") 5 (@world_with choiceless tt deck4)
  = (Returned (lit "Error processing slide: list index out of range"),
     @Build_world choiceless tt (fs (@world_with choiceless tt deck4))
       [Request (the_request (lit "Intro"));
        Log ERROR (lit "Error processing slide: list index out of range")]).
Proof.
  apply (@empty_choices_fallback choiceless (lit "Intro") 5
           (@world_with choiceless tt deck4) {| choices := [] |} tt); reflexivity.
Defined.

Lemma first_answer_returned_witness :
  fst (@get_explanation_with answering (lit "Intro") 5 (@world_with answering tt deck4))
  = Returned
      (lit "Error processing slide: 'ChatCompletionMessage' object is not subscriptable")
  /\ fst (@get_explanation_with echoing (lit "  Intro  ") 5 (@world_with echoing tt deck4))
     = Returned (lit "Explain the following presentation slide content succinctly:"
                 ++ [0x0A; 0x0A] ++ lit "  Intro")
  /\ fst (@get_explanation_with keyless (lit "Intro") 5 (@world_with keyless tt deck4))
     = Returned (lit "Error processing slide: 'content'").
Proof.
  split; [|split].
  - destruct (@first_answer_returned answering (lit "Intro") 5
                (@world_with answering tt deck4) (one_choice (lit " A title slide. ")) tt
                eq_refl eq_refl) as (Hobject & _ & _).
    rewrite (Hobject (lit "assistant") (Some (lit " A title slide. ")) [] eq_refl).
    reflexivity.
  - destruct (@first_answer_returned echoing (lit "  Intro  ") 5
                (@world_with echoing tt deck4)
                (mapping_choice (user_prompt (the_request (lit "  Intro  ")))) tt
                eq_refl eq_refl) as (_ & Hmapping & _).
    destruct (Hmapping _ [] (user_prompt (the_request (lit "  Intro  "))) eq_refl)
      as (Hrun & _ & _); [vm_compute; reflexivity|].
    rewrite Hrun. vm_compute. reflexivity.
  - destruct (@first_answer_returned keyless (lit "Intro") 5
                (@world_with keyless tt deck4)
                {| choices := [ {| message := Mapping {[ lit "role" := lit "assistant" ]} |} ] |}
                tt eq_refl eq_refl) as (_ & _ & Hkeyless).
    rewrite (Hkeyless _ [] eq_refl); [reflexivity | vm_compute; reflexivity].
Defined.

Lemma requests_in_slide_order_witness :
  exists es w' tr (ks : list nat),
    @process_presentation limited_twice deck_path (@world_with limited_twice 0%nat deck4)
    = (Returned es, w')
    /\ events w' = events (@world_with limited_twice 0%nat deck4) ++ tr
    /\ length ks = 4%nat
    /\ Forall (fun k => (1 <= k <= 5)%nat) ks
    /\ map user_prompt (requests tr)
       = concat (zip_with
                   (fun t k =>
                      repeat (lit "Explain the following presentation slide content succinctly:"
                              ++ [0x0A; 0x0A] ++ t) k)
                   [lit "Intro"; lit "Goals Scope"; lit "Plan"; lit "Thanks"] ks)
    /\ (4 <= length (requests tr) <= 20)%nat.
Proof.
  destruct (@requests_in_slide_order limited_twice deck_path deck4
              (@world_with limited_twice 0%nat deck4))
    as (es & w' & tr & ks & Hrun & Hev & Hlen & Hks & Hreq & Hn);
    [vm_compute; reflexivity|].
  exists es, w', tr, ks. split; [exact Hrun|]. split; [exact Hev|].
  split; [exact Hlen|]. split; [exact Hks|]. split; [|exact Hn].
  rewrite Hreq. change (all_texts_of deck4)
    with [lit "Intro"; lit "Goals Scope"; lit "Plan"; lit "Thanks"].
  clear. generalize [lit "Intro"; lit "Goals Scope"; lit "Plan"; lit "Thanks"].
  intros texts. revert ks. induction texts as [|t texts IH]; intros [|k ks];
    try reflexivity.
  cbn [zip_with concat]. rewrite map_app, IH. f_equal.
  induction k as [|k IHk]; [reflexivity|]. cbn [repeat map]. rewrite IHk. reflexivity.
Defined.

Lemma run_duration_witness :
  exists es w' tr,
    @process_presentation limited_twice deck_path (@world_with limited_twice 0%nat deck4)
    = (Returned es, w')
    /\ events w' = events (@world_with limited_twice 0%nat deck4) ++ tr
    /\ (20 * Z.of_nat (length (all_texts_of deck4))
        + 40 * (Z.of_nat (length (all_texts_of deck4)) / 3)
        <= total_sleep tr
        <= 320 * Z.of_nat (length (all_texts_of deck4))
           + 40 * (Z.of_nat (length (all_texts_of deck4)) / 3))%Z.
Proof.
  apply (@run_duration limited_twice deck_path deck4
           (@world_with limited_twice 0%nat deck4)).
  vm_compute. reflexivity.
Defined.

Lemma run_changes_output_only_witness :
  exists es w',
    @main answering deck_path (@world_with answering tt deck4) = (Returned tt, w')
    /\ (forall p, p <> output_path deck_path ->
                  fs w' !! p = fs (@world_with answering tt deck4) !! p)
    /\ fs w' !! deck_path = Some (Pptx deck4)
    /\ (snd (splitext deck_path) = lit ".json" ->
        output_path deck_path = deck_path
        /\ fs w' !! deck_path = Some (Text (json_dumps es))).
Proof.
  destruct (@run_changes_output_only answering deck_path deck4
              (@world_with answering tt deck4))
    as (es & w' & Hmain & Hframe & Hkept & Hlost); [vm_compute; reflexivity|].
  exists es, w'. split; [exact Hmain|]. split; [exact Hframe|].
  split; [apply Hkept; vm_compute; discriminate | exact Hlost].
Defined.

Lemma json_named_deck_lost_witness :
  exists w',
    @script answering env_with_key [json_named] (@world_json_named answering tt)
    = (0%Z, w')
    /\ @script answering env_with_key [json_named] w'
       = (1%Z, @Build_world answering (remote w') (fs w')
                 (events w'
                  ++ [Log INFO (lit "Processing presentation: " ++ json_named)])).
Proof.
  apply (@json_named_deck_lost answering env_with_key [json_named] (lit "sk-test")
           json_named deck4 (@world_json_named answering tt));
    vm_compute; reflexivity.
Defined.

Lemma missing_deck_exit_witness :
  @script answering env_with_key [lit "talks/absent.pptx"] (@world_with answering tt deck4)
  = (1%Z, @Build_world answering tt (fs (@world_with answering tt deck4))
            [Log INFO (lit "Processing presentation: talks/absent.pptx")]).
Proof.
  apply (@missing_deck_exit answering env_with_key [lit "talks/absent.pptx"]
           (@world_with answering tt deck4) (lit "sk-test") (lit "talks/absent.pptx")).
  - vm_compute. reflexivity.
  - reflexivity.
  - intros ppt. vm_compute. discriminate.
Defined.

Lemma test_script_passes_witness :
  fst (@test_script answering (lit "src") env_with_key (@world_demo answering tt)) = true.
Proof.
  apply (@test_script_passes answering (lit "src") env_with_key (lit "sk-test") deck4
           (@world_demo answering tt)); vm_compute; reflexivity.
Defined.

Lemma test_script_blind_to_failure_witness :
  fst (@script answering ∅ [lit "src/presentation.pptx"] (@world_stale answering tt)) = 1%Z
  /\ fst (@test_script answering (lit "src") ∅ (@world_stale answering tt)) = true.
Proof.
  destruct (@test_script_blind_to_failure answering (lit "src") ∅
              (@world_stale answering tt)) as [Hexit Hverdict];
    [left; reflexivity|].
  split; [exact Hexit|]. rewrite Hverdict. vm_compute. reflexivity.
Defined.
